(** * docusaurus-docs-to-pdf: harvesting and assembly pipeline

    A shallow embedding of the TypeScript sources (type.ts, docusaurus.ts,
    html.ts, browser.ts and the command line entry point) together with the
    properties of the pipeline: navigation extraction, identifier
    assignment, tree flattening, the bounded worker pool, per page failure
    isolation, link rewriting, document assembly and process exit codes. *)

From Stdlib Require Import String Ascii List Arith ZArith Lia Bool DecimalString.
From stdpp Require Import base list strings.
Import ListNotations.

#[local] Set Warnings "-register-all".
#[local] Open Scope string_scope.
#[local] Open Scope list_scope.
#[local] Open Scope nat_scope.

(* ================================================================== *)
(** ** JavaScript string primitives used by the sources *)
(* ================================================================== *)

Module Js.

(** The double quote character, as a one character string. *)
Definition dq : string := String "034"%char EmptyString.

(** Truthiness of a string value: [if (s)] holds for every string but
    the empty one. *)
Definition truthy (s : string) : bool := negb (String.eqb s "").

(** [s || ''] for a value that may be [null] or [undefined]. *)
Definition orEmpty (o : option string) : string :=
  match o with
  | Some s => s
  | None => ""
  end.

(** Truthiness of an optional string: [undefined] and [''] are falsy. *)
Definition truthyOpt (o : option string) : bool := truthy (orEmpty o).

(** [s.endsWith(suffix)]: the last [suffix.length] code units of [s]
    are those of [suffix]. *)
Definition endsWith (s suffix : string) : bool :=
  (String.length suffix <=? String.length s)
  && String.eqb
       (substring (String.length s - String.length suffix)
                  (String.length suffix) s)
       suffix.

(** [s.replace(/c/g, d)] for characters [c] and [d]. *)
Fixpoint replaceChar (c d : ascii) (s : string) : string :=
  match s with
  | EmptyString => EmptyString
  | String x s' => String (if Ascii.eqb x c then d else x) (replaceChar c d s')
  end.

(** [s.includes(c)] for a one character string [c]. *)
Fixpoint includes (s : string) (c : ascii) : bool :=
  match s with
  | EmptyString => false
  | String x s' => Ascii.eqb x c || includes s' c
  end.

(** The text of [s] before the first [c]. *)
Fixpoint untilChar (c : ascii) (s : string) : string :=
  match s with
  | EmptyString => EmptyString
  | String x s' => if Ascii.eqb x c then EmptyString
                   else String x (untilChar c s')
  end.

(** The text of [s] after the first [c]. *)
Fixpoint afterChar (c : ascii) (s : string) : string :=
  match s with
  | EmptyString => EmptyString
  | String x s' => if Ascii.eqb x c then s' else afterChar c s'
  end.

(** [s.split(c)[1]] for a string [s] that includes [c]. *)
Definition secondField (c : ascii) (s : string) : string :=
  untilChar c (afterChar c s).

(** [s.substring(n)]: everything from position [n] on. *)
Definition substringFrom (n : nat) (s : string) : string :=
  substring n (String.length s - n) s.

End Js.

(* ================================================================== *)
(** ** type.ts *)
(* ================================================================== *)

(** [SidebarItem]: one entry of the navigation hierarchy. *)
Inductive SidebarItem : Type := mkSidebarItem {
  title : string;
  id : string;
  path : string;
  url : string;
  children : list SidebarItem
}.

(** [PageDetails]: the content extracted from one page.  The object the
    harvester builds is [{...sidebarItem, html}]; the fields declared by
    the interface are the ones kept here. *)
Record PageDetails : Type := mkPageDetails {
  pd_id : string;
  pd_title : string;
  pd_url : string;
  pd_path : string;
  pd_html : string
}.

(** Document order: pre-order depth-first traversal of the forest. *)
Fixpoint preorderItem (item : SidebarItem) : list SidebarItem :=
  item :: flat_map preorderItem (children item).

Definition preorder (items : list SidebarItem) : list SidebarItem :=
  flat_map preorderItem items.

(** The leaf predicate in the words of the specification. *)
Definition LeafPage (n : SidebarItem) : Prop :=
  children n = []
  /\ url n <> ""
  /\ url n <> "#"
  /\ ~ (exists p : string, url n = p +:+ "/#").

(* ================================================================== *)
(** ** Tree flattener ([extractPages], nested in
       [buildPageDetailsParallel]) *)
(* ================================================================== *)

(** The test guarding [flattenedList.push({ ...item })]. *)
Definition isPage (item : SidebarItem) : bool :=
  (length (children item) =? 0)
  && Js.truthy (url item)
  && negb (String.eqb (url item) "#")
  && negb (Js.endsWith (url item) "/#").

(** One iteration of the [for (const item of items)] loop. *)
Fixpoint extractPagesItem (item : SidebarItem) (flattenedList : list SidebarItem)
  : list SidebarItem :=
  let pushed :=
    if isPage item then flattenedList ++ [item] else flattenedList in
  if 0 <? length (children item)
  then fold_left (fun acc child => extractPagesItem child acc)
                 (children item) pushed
  else pushed.

Definition extractPages (items flattenedList : list SidebarItem)
  : list SidebarItem :=
  fold_left (fun acc item => extractPagesItem item acc) items flattenedList.

(* ================================================================== *)
(** ** Errors and results *)
(* ================================================================== *)

(** A thrown JavaScript value, by the kind of failure it reports. *)
Inductive JsError : Type :=
  | TypeError (message : string)
  | TimeoutError (message : string)
  | ProtocolError (message : string)
  | PlainError (message : string).

(** The outcome of a call that may throw (or of a promise that may
    reject): [inl e] is the thrown error, [inr v] the value. *)
Definition Result (A : Type) : Type := JsError + A.

Definition ret {A : Type} (a : A) : Result A := inr a.
Definition throw {A : Type} (e : JsError) : Result A := inl e.

Definition bind {A B : Type} (r : Result A) (k : A -> Result B) : Result B :=
  match r with
  | inl e => inl e
  | inr a => k a
  end.

(** A call awaited only for its failure: [None] is normal completion. *)
Definition check (o : option JsError) : Result unit :=
  match o with
  | Some e => inl e
  | None => inr tt
  end.

Notation "x <- r ;; k" := (bind r (fun x => k))
  (at level 100, r at next level, right associativity).
Notation "r ;;; k" := (bind r (fun _ => k))
  (at level 100, right associativity).

(* ================================================================== *)
(** ** docusaurus.ts: functions evaluated inside the browser page *)
(* ================================================================== *)

(** The part of the DOM the in-page functions touch.  Elements are
    handles into a document; a write through a handle yields the updated
    document. *)
Class Dom : Type := {
  Document : Type;
  Element : Type;
  (** [document.querySelector(selector)], at its declared type
      [Element | null].  The selectors the sources pass are literals and
      ['#'] followed by an id; what the DOM does with a string that is
      no selector is not part of this interface. *)
  querySelector : Document -> string -> option Element;
  (** [document.querySelectorAll(selector)], in document order. *)
  querySelectorAll : Document -> string -> list Element;
  (** [element.querySelector(selector)]. *)
  elementQuerySelector : Document -> Element -> string -> option Element;
  (** [element.click()]. *)
  click : Element -> Document -> Document;
  (** [element.id = newId]. *)
  setId : Element -> string -> Document -> Document;
  (** [element.style.pageBreakAfter = value]. *)
  setPageBreakAfter : Element -> string -> Document -> Document;
  (** [element.outerHTML], read in the given document. *)
  outerHTML : Document -> Element -> string
}.

Section InPage.

Context {dom : Dom}.

(** [updateElementId(selector, newId)]: the non-null assertion is erased
    by the compiler, so a missing element makes the assignment throw. *)
Definition updateElementId (selector newId : string) (d : Document)
  : Document * Result unit :=
  match querySelector d selector with
  | Some element => (setId element newId d, ret tt)
  | None => (d, throw (TypeError "Cannot set properties of null"))
  end.

(** [getElementOuterHtml(selector)]. *)
Definition getElementOuterHtml (selector : string) (d : Document)
  : Document * Result string :=
  match querySelector d selector with
  | Some element =>
      let d' := setPageBreakAfter element "always" d in
      (d', ret (outerHTML d' element))
  | None => (d, ret "")
  end.

(** [expandDetails()]: click the summary of every collapsed details
    element. *)
Definition expandDetails (d : Document) : Document * Result unit :=
  let details := querySelectorAll d ("details[data-collapsed=" +:+ Js.dq
                                     +:+ "true" +:+ Js.dq +:+ "]") in
  (fold_left
     (fun doc it =>
        match elementQuerySelector doc it "summary" with
        | Some summaryElement => click summaryElement doc
        | None => doc
        end)
     details d,
   ret tt).

End InPage.

(** An [<a>] element of the merged document, by its [href] attribute
    ([None] when the attribute is absent). *)
Record Link : Type := mkLink { href : option string }.

(** The inner loop of [rewriteLinks]: the new value of an [href] equal to
    [linkPath], decided by the first pair whose path is identical. *)
Fixpoint rewriteHref (pathToAnchors : list (string * string))
  (linkPath : string) : option string :=
  match pathToAnchors with
  | [] => None
  | (path, anchor) :: rest =>
      if String.eqb linkPath path
      then Some ("#" +:+ anchor)
      else rewriteHref rest linkPath
  end.

(** [rewriteLinks(pathToAnchors)] over the [<a>] elements of the document
    in document order: [querySelectorAll('a[href]')] selects the ones that
    carry the attribute, [setAttribute] is called on a match only. *)
Definition rewriteLinks (pathToAnchors : list (string * string))
  (doc : list Link) : list Link :=
  map (fun element =>
         match href element with
         | Some h =>
             let linkPath := Js.orEmpty (Some h) in
             match rewriteHref pathToAnchors linkPath with
             | Some h' => mkLink (Some h')
             | None => element
             end
         | None => element
         end) doc.

(** The anchor a path is mapped to, in the words of the specification:
    the anchor of the first entry of the map whose key is that path. *)
Definition anchorOf (pathToAnchors : list (string * string)) (p : string)
  : option string :=
  snd <$> List.find (fun entry => String.eqb p (fst entry)) pathToAnchors.

(** What one call of [generateValidHtmlId] observes: the clock and the
    random number, the latter through its base 36 rendering. *)
Record Entropy : Type := mkEntropy {
  dateNow : Z;              (* Date.now() *)
  randomToString36 : string (* Math.random().toString(36) *)
}.

(** [n.toString()] for an integral number below 1e21. *)
Definition numberToString (n : Z) : string :=
  NilZero.string_of_int (Z.to_int n).

(** [const randomPart = Math.random().toString(36).substring(2)]. *)
Definition randomPart (e : Entropy) : string :=
  Js.substringFrom 2 (randomToString36 e).

(** [const timestampPart = Date.now().toString().substring(5)]. *)
Definition timestampPart (e : Entropy) : string :=
  Js.substringFrom 5 (numberToString (dateNow e)).

(** [generateValidHtmlId()]. *)
Definition generateValidHtmlId (e : Entropy) : string :=
  "id-" +:+ timestampPart e +:+ randomPart e.

(** The ids of [K] successive calls. *)
Definition generateIds (source : nat -> Entropy) (K : nat) : list string :=
  map (fun k => generateValidHtmlId (source k)) (seq 0 K).

(** The link element of a sidebar entry. *)
Record HTMLAnchorElement : Type := mkAnchor {
  textContent : option string;   (* a.textContent *)
  getAttributeHref : option string; (* a.getAttribute('href') *)
  hrefProperty : string          (* a.href *)
}.

(** A list entry of the sidebar, by the two queries [parseListItems] makes
    on it: the link element and the children of the nested list. *)
Inductive Li : Type := mkLi {
  li_a : option HTMLAnchorElement;
  li_subList : option (list Li)
}.

Section Sidebar.

(** [String.prototype.trim]. *)
Variable trim : string -> string.

(** The clock and random readings of the successive calls of
    [generateValidHtmlId]; the state threaded through the extraction is
    the number of calls made so far. *)
Variable source : nat -> Entropy.

(** One iteration of the [for (const li of lis)] loop: [None] for a
    skipped entry, else the item pushed. *)
Fixpoint parseListItem (li : Li) (calls : nat) : option SidebarItem * nat :=
  match li_a li with
  | None => (None, calls)
  | Some a =>
      let '(children, calls1) :=
        match li_subList li with
        | Some subList =>
            fold_left
              (fun '(sidebarItems, c) child =>
                 match parseListItem child c with
                 | (Some item, c') => (sidebarItems ++ [item], c')
                 | (None, c') => (sidebarItems, c')
                 end)
              subList ([], calls)
        | None => ([], calls)
        end in
      (Some {| id := generateValidHtmlId (source calls1);
               title := Js.orEmpty
                          (match textContent a with
                           | Some t => if Js.truthy t then Some (trim t)
                                       else None
                           | None => None
                           end);
               path := Js.orEmpty (getAttributeHref a);
               url := hrefProperty a;
               children := children |},
       S calls1)
  end.

Definition parseListItems (lis : list Li) (calls : nat)
  : list SidebarItem * nat :=
  fold_left
    (fun '(sidebarItems, c) li =>
       match parseListItem li c with
       | (Some item, c') => (sidebarItems ++ [item], c')
       | (None, c') => (sidebarItems, c')
       end)
    lis ([], calls).

End Sidebar.

(** *** Vocabulary for the properties of the extraction *)

(** The entries that reach the navigation tree: an entry without link
    element is dropped with everything below it. *)
Fixpoint pruneLi (li : Li) : list Li :=
  match li_a li with
  | None => []
  | Some a =>
      [mkLi (Some a)
            (match li_subList li with
             | Some subList => Some (flat_map pruneLi subList)
             | None => None
             end)]
  end.

(** The number of entries all of whose ancestors, and themselves, have a
    link element. *)
Fixpoint linkedCount (li : Li) : nat :=
  match li_a li with
  | None => 0
  | Some _ =>
      S (match li_subList li with
         | Some subList => list_sum (map linkedCount subList)
         | None => 0
         end)
  end.

(** The same sidebar with other link texts and targets. *)
Fixpoint relabelLi (f : HTMLAnchorElement -> HTMLAnchorElement) (li : Li)
  : Li :=
  mkLi (option_map f (li_a li))
       (match li_subList li with
        | Some subList => Some (map (relabelLi f) subList)
        | None => None
        end).

(** The ids of a navigation forest, in document order. *)
Definition treeIds (items : list SidebarItem) : list string :=
  map id (preorder items).

(** Every character of the string satisfies [p]. *)
Fixpoint allChars (p : ascii -> bool) (s : string) : bool :=
  match s with
  | EmptyString => true
  | String c s' => p c && allChars p s'
  end.

Definition isDigit (c : ascii) : bool :=
  (48 <=? nat_of_ascii c) && (nat_of_ascii c <=? 57).

Definition isLower (c : ascii) : bool :=
  (97 <=? nat_of_ascii c) && (nat_of_ascii c <=? 122).

Definition isLetter (c : ascii) : bool :=
  isLower c || ((65 <=? nat_of_ascii c) && (nat_of_ascii c <=? 90)).

(** The anchor-safe syntax: a letter first, then letters, digits, hyphens
    and underscores only. *)
Definition anchorSafe (s : string) : bool :=
  match s with
  | EmptyString => false
  | String c s' =>
      isLetter c
      && allChars (fun x => isLetter x || isDigit x
                            || Ascii.eqb x "-" || Ascii.eqb x "_") s'
  end.

(** The renderings [Math.random().toString(36)] can take: ["0"], or
    ["0."] followed by base 36 digits. *)
Definition randomRendering (s : string) : Prop :=
  s = "0"
  \/ exists frac : string,
       s = "0." +:+ frac
       /\ allChars (fun x => isDigit x || isLower x) frac = true.

(* ================================================================== *)
(** ** html.ts *)
(* ================================================================== *)

(** [PaperFormat] and the entry of [PAPER_FORMATS] the converter uses. *)
Record PaperFormat : Type := mkPaperFormat { widthMm : Z; heightMm : Z }.

Definition PAPER_FORMATS_A4 : PaperFormat := mkPaperFormat 210 297.

(** The block returned for an empty sidebar. *)
Definition tocEmptyTemplate (title : string) : string :=
  "
            <div class="
  +:+ Js.dq
  +:+ "docusaurus-toc-body"
  +:+ Js.dq
  +:+ " style="
  +:+ Js.dq
  +:+ "font-family: var(--ifm-font-family-base, -apple-system,BlinkMacSystemFont,Segoe UI,Roboto,Helvetica Neue,sans-serif); color: var(--ifm-font-color-base, #2e353b); line-height: 1.6; padding: 20px; page-break-after: always;"
  +:+ Js.dq
  +:+ ">
                <h1 class="
  +:+ Js.dq
  +:+ "toc-title"
  +:+ Js.dq
  +:+ " style="
  +:+ Js.dq
  +:+ "font-size: 2em; font-weight: 700; margin-bottom: 20px; padding-bottom: 10px; border-bottom: 1px solid var(--ifm-toc-border-color, #eee); color: var(--ifm-font-color-base, #2e353b);"
  +:+ Js.dq
  +:+ ">
                    "
  +:+ title
  +:+ "
                </h1>
                <p style="
  +:+ Js.dq
  +:+ "font-size: 1rem; color: var(--ifm-font-color-secondary, #666);"
  +:+ Js.dq
  +:+ ">No table of contents available.</p>
            </div>
        ".

(** The block that frames the rendered list: style sheet, heading and
    list. *)
Definition tocTemplate (title tocHtmlContent : string) : string :=
  "
        <div class="
  +:+ Js.dq
  +:+ "docusaurus-toc-body"
  +:+ Js.dq
  +:+ " style="
  +:+ Js.dq
  +:+ "page-break-after: always;"
  +:+ Js.dq
  +:+ ">
            <style>
                /* CSS variables defining Docusaurus-like theme colors and fonts */
                :root {
                    --ifm-font-family-base: -apple-system,BlinkMacSystemFont,Segoe UI,Roboto,Helvetica Neue,sans-serif;
                    --ifm-font-color-base: #2e353b;
                    --ifm-font-color-secondary: #666;
                    --ifm-link-color: #25c2a0; /* Docusaurus green for links */
                    --ifm-link-hover-color: #1a8f74; /* Darker green on hover (for consistency, though not active in PDF) */
                    --ifm-toc-border-color: #eee;
                    --ifm-h1-font-size: 2em;
                    --ifm-h1-font-weight: 700;
                    --ifm-spacing-vertical: 0.4rem; /* Vertical spacing between list items */
                }

                /* Overall container for the Table of Contents */
                .docusaurus-toc-body {
                    font-family: var(--ifm-font-family-base, -apple-system,BlinkMacSystemFont,Segoe UI,Roboto,Helvetica Neue,sans-serif);
                    color: var(--ifm-font-color-base, #2e353b);
                    line-height: 1.5; /* Slightly tighter line height for TOC readability */
                    padding: 20px;
                    box-sizing: border-box; /* Ensures padding is included in element's total dimensions */
                    max-width: 100%; /* Prevents horizontal overflow */
                }

                /* Styling for the main TOC title (e.g., "
  +:+ Js.dq
  +:+ "目录"
  +:+ Js.dq
  +:+ ") */
                .docusaurus-toc-body h1.toc-title {
                    font-size: var(--ifm-h1-font-size, 2em);
                    font-weight: var(--ifm-h1-font-weight, 700);
                    margin-bottom: 25px; /* Space below the title */
                    padding-bottom: 12px; /* Padding above the bottom border */
                    border-bottom: 1px solid var(--ifm-toc-border-color, #eee); /* Separator line */
                    color: var(--ifm-font-color-base, #2e353b);
                }

                /* Styling for unordered lists within the TOC */
                .docusaurus-toc-body ul {
                    list-style: none; /* Remove default bullet points */
                    margin: 0;
                    padding: 0;
                }

                /* Styling for individual list items */
                .docusaurus-toc-body li {
                    position: relative; /* Needed for ::before positioning */
                    margin-bottom: var(--ifm-spacing-vertical, 0.4rem); /* Controlled vertical spacing */
                    line-height: 1.4; /* Item line height */
                    font-size: 1rem; /* Base font size for all list items */
                }

                /* Common styling for all links within TOC items */
                .docusaurus-toc-body li a {
                    text-decoration: none; /* No underline */
                    display: block; /* Makes the entire area clickable/selectable */
                    padding: 0.1rem 0.2rem; /* Small padding around text for visual comfort */
                    border-radius: 4px; /* Slight rounded corners for a modern look */
                    transition: background-color 0.2s ease, color 0.2s ease; /* Smooth transitions (for web, but good practice) */
                }

                /* Specific styling for Directory items (categories with children) */
                .docusaurus-toc-body li.toc-directory > a {
                    color: var(--ifm-font-color-base, #2e353b); /* Base text color, less like a link, more like a category heading */
                    font-weight: 600; /* Bolder to signify a grouping */
                }

                /* Specific styling for Document items (actual pages, no children) */
                .docusaurus-toc-body li.toc-document > a {
                    color: var(--ifm-link-color, #25c2a0); /* Docusaurus green for document links */
                    font-weight: normal; /* Regular weight */
                }
                
                /* Icon for Directory items (a modern triangle) */
                .docusaurus-toc-body li.toc-directory::before {
                    content: '➤ '; /* Unicode triangle character */
                    color: var(--ifm-font-color-secondary, #999); /* Grayish triangle color */
                    font-size: 0.7em; /* Smaller relative to text */
                    margin-right: 0.4rem; /* Space between icon and text */
                    display: inline-block; /* Allows width and alignment properties */
                    width: 0.8rem; /* Fixed width for consistent spacing */
                    text-align: left; /* Align icon within its fixed width */
                    transform: scaleY(0.8); /* Slightly compresses the icon vertically for better visual balance */
                    opacity: 0.8; /* Slight transparency for a softer look */
                }

                /* Adjust padding for links to align text, accounting for the icon's presence */
                .docusaurus-toc-body li.toc-directory > a {
                    padding-left: 0; /* No left padding on the link itself, as the icon provides the visual offset */
                    display: inline-block; /* Necessary for the ::before icon to align correctly with text */
                }
                .docusaurus-toc-body li.toc-document > a {
                    /* For document items (no icon), apply padding to simulate the icon's space for alignment */
                    padding-left: 1.2rem; /* Matches the visual offset created by the icon for directory items */
                }

            </style>
            <h1 class="
  +:+ Js.dq
  +:+ "toc-title"
  +:+ Js.dq
  +:+ ">"
  +:+ title
  +:+ "</h1>
            "
  +:+ tocHtmlContent
  +:+ "
        </div>
    ".

(** The cover page: one block of the size of the paper around the
    image. *)
Definition coverTemplate (widthMm heightMm dataUrl altText : string)
  : string :=
  "
    <div style="
  +:+ Js.dq
  +:+ "
      width: "
  +:+ widthMm
  +:+ "mm;     /* Sets the width of the cover page container to the specified format's width in millimeters */
      height: "
  +:+ heightMm
  +:+ "mm;    /* Sets the height of the cover page container to the specified format's height in millimeters */
      display: flex;                /* Uses Flexbox for easy centering of the image within the container */
      justify-content: center;      /* Horizontally centers the image using Flexbox */
      align-items: center;          /* Vertically centers the image using Flexbox */
      background-color: #ffffff;    /* Ensures a white background for the cover page */
      overflow: hidden;             /* Prevents content (especially the image) from overflowing its container */
      margin: 0; padding: 0;        /* Resets default outer margins and inner padding for the div */
      box-sizing: border-box;       /* Sets the box model to border-box, so padding and border are included in the width/height */
      page-break-after: always;     /* Forces a page break after this div in the generated PDF, ensuring the cover is on its own page */
    "
  +:+ Js.dq
  +:+ ">
      <img
        src="
  +:+ Js.dq
  +:+ dataUrl
  +:+ Js.dq
  +:+ "            /* Sets the image source to the Base64 Data URL */
        alt="
  +:+ Js.dq
  +:+ altText
  +:+ Js.dq
  +:+ "            /* Provides alternative text for accessibility */
        style="
  +:+ Js.dq
  +:+ "
          max-width: 100%;          /* Ensures the image does not exceed the width of its container */
          max-height: 100%;         /* Ensures the image does not exceed the height of its container */
          object-fit: contain;      /* Scales the image to fit within its container while maintaining its aspect ratio */
          display: block;           /* Changes image from inline to block-level to remove extra space below it */
        "
  +:+ Js.dq
  +:+ "
      />
    </div>".

(** [generateCoverHtml(imageMimeType, imageBase64, format)] with the
    default [altText]. *)
Definition generateCoverHtml (imageMimeType imageBase64 : string)
  (format : PaperFormat) : string :=
  let imageData :=
    if Js.includes imageBase64 ","
    then Js.secondField "," imageBase64
    else imageBase64 in
  let dataUrl := "data:" +:+ imageMimeType +:+ ";base64," +:+ imageData in
  coverTemplate (numberToString (widthMm format))
                (numberToString (heightMm format)) dataUrl "Cover Image".

Section Toc.

(** The text of [${level * 0.8}], a floating point product. *)
Variable indentation : nat -> string.

(** [renderTocItems] around the text [entry] appends for each item: the
    empty string for no items, else the entries between the list tags. *)
Definition renderTocList (entry : SidebarItem -> string)
  (items : list SidebarItem) : string :=
  match items with
  | [] => ""
  | _ :: _ =>
      fold_left (fun html item => html +:+ entry item) items "<ul>"
      +:+ "</ul>"
  end.

(** What the [forEach] callback of [renderTocItems] appends for one
    item. *)
Fixpoint renderTocItem (level : nat) (item : SidebarItem) : string :=
  let hasChildren := 0 <? length (children item) in
  let itemClass := if hasChildren then "toc-directory" else "toc-document" in
  let indentationStyle := "padding-left: " +:+ indentation level +:+ "rem;" in
  "<li class=" +:+ Js.dq +:+ itemClass +:+ Js.dq
  +:+ " style=" +:+ Js.dq +:+ indentationStyle +:+ Js.dq +:+ ">"
  +:+ "<a href=" +:+ Js.dq +:+ "#" +:+ id item +:+ Js.dq +:+ ">"
  +:+ title item +:+ "</a>"
  +:+ (if hasChildren
       then renderTocList (renderTocItem (S level)) (children item)
       else "")
  +:+ "</li>".

Definition renderTocItems (items : list SidebarItem) (level : nat) : string :=
  renderTocList (renderTocItem level) items.

(** [generateTocHtml(sidebarItems, title)]. *)
Definition generateTocHtml (sidebarItems : list SidebarItem) (title : string)
  : string :=
  if length sidebarItems =? 0
  then tocEmptyTemplate title
  else tocTemplate title (renderTocItems sidebarItems 0).

(** *** The table of contents as a tree of elements *)

(** Markup: text, or an element with attributes and content. *)
Inductive Html : Type :=
  | Text (s : string)
  | Elem (tag : string) (attrs : list (string * string)) (body : list Html).

Definition renderAttr (attr : string * string) : string :=
  " " +:+ fst attr +:+ "=" +:+ Js.dq +:+ snd attr +:+ Js.dq.

(** The serialization of markup. *)
Fixpoint renderHtml (h : Html) : string :=
  match h with
  | Text s => s
  | Elem tag attrs body =>
      "<" +:+ tag +:+ String.concat "" (map renderAttr attrs) +:+ ">"
      +:+ String.concat "" (map renderHtml body)
      +:+ "</" +:+ tag +:+ ">"
  end.

(** The table of contents in the words of the specification: one list
    entry per node, holding a link to ['#'] followed by the node's id and,
    for a node with children, the list of its children one level deeper. *)
Fixpoint tocEntry (level : nat) (item : SidebarItem) : Html :=
  Elem "li"
    [("class", if 0 <? length (children item)
               then "toc-directory" else "toc-document");
     ("style", "padding-left: " +:+ indentation level +:+ "rem;")]
    (Elem "a" [("href", "#" +:+ id item)] [Text (title item)]
     :: match children item with
        | [] => []
        | _ :: _ => [Elem "ul" [] (map (tocEntry (S level)) (children item))]
        end).

Definition tocList (items : list SidebarItem) (level : nat) : list Html :=
  match items with
  | [] => []
  | _ :: _ => [Elem "ul" [] (map (tocEntry level) items)]
  end.

(** The links of a piece of markup in document order, each with the
    number of lists it is nested in. *)
Fixpoint linksOf (depth : nat) (h : Html) : list (nat * string * string) :=
  match h with
  | Text _ => []
  | Elem tag attrs body =>
      if String.eqb tag "a"
      then [(depth,
             Js.orEmpty (snd <$> List.find (fun kv => String.eqb (fst kv) "href")
                                           attrs),
             String.concat "" (map renderHtml body))]
      else flat_map (linksOf (if String.eqb tag "ul" then S depth else depth))
                    body
  end.



End Toc.

(** The merge of stage 3 of [convertDocusaurusPageToPdf]: cover, table of
    contents, then the pages in the order of the array.  Reading [html] of
    an empty slot of the array throws. *)
Definition mergeHtml (indentation : nat -> string)
  (pdfCoverImage coverImageBase64 coverImageMimeType : option string)
  (sidebarItems : list SidebarItem)
  (pageDetails : list (option PageDetails)) : Result string :=
  let html := "" in
  let html :=
    if Js.truthyOpt pdfCoverImage && Js.truthyOpt coverImageBase64
       && Js.truthyOpt coverImageMimeType
    then html +:+ generateCoverHtml (Js.orEmpty coverImageMimeType)
                                    (Js.orEmpty coverImageBase64)
                                    PAPER_FORMATS_A4
    else html in
  let html := html +:+ generateTocHtml indentation sidebarItems "目录" in
  fold_left
    (fun acc singlePageDetail =>
       html <- acc ;;
       match singlePageDetail with
       | Some detail => ret (html +:+ pd_html detail)
       | None =>
           throw (TypeError "Cannot read properties of undefined")
       end)
    pageDetails (ret html).

(* ================================================================== *)
(** ** The Puppeteer objects the converter drives *)
(* ================================================================== *)

(** What a run does to the browser and the console, in order.  Of the
    console output only the error lines are kept. *)
Inductive Event : Type :=
  | EvNewPage                          (* browser.newPage() resolved *)
  | EvGoto (url : string)              (* page.goto(url, ...) *)
  | EvWaitForSelector (selector : string)
  | EvEvaluate (pageFunction : string) (* page.evaluate(pageFunction, ...) *)
  | EvConsoleError (message : string)
  | EvPageClose                        (* page.close() *)
  | EvSetBody (html : string)          (* replaceBodyInnerHtml(html) ran *)
  | EvPdf (path : string)              (* page.pdf({path, ...}) resolved *)
  | EvBrowserClose.                    (* browser.close() *)

(** An asynchronous computation: the events it produced and its outcome. *)
Definition Task (A : Type) : Type := list Event * Result A.

Definition tret {A : Type} (a : A) : Task A := ([], ret a).

Definition tbind {A B : Type} (t : Task A) (k : A -> Task B) : Task B :=
  match t with
  | (events, inl e) => (events, inl e)
  | (events, inr a) => let '(events', r) := k a in (events ++ events', r)
  end.

(** A call that leaves the event [ev] and has the outcome [r]. *)
Definition call {A : Type} (ev : Event) (r : Result A) : Task A := ([ev], r).

Notation "x <<- t ;; k" := (tbind t (fun x => k))
  (at level 100, t at next level, right associativity).

(** [try { body } catch (error) { handler } finally { finalizer }]: the
    finalizer runs on every path, and an error it throws replaces the
    outcome of the rest. *)
Definition tryCatchFinally {A : Type} (body : Task A)
  (handler : JsError -> Task A) (finalizer : Task unit) : Task A :=
  let '(events1, r1) := body in
  let '(events2, r2) :=
    match r1 with
    | inl error => handler error
    | inr a => ([], inr a)
    end in
  let '(events3, r3) := finalizer in
  (events1 ++ events2 ++ events3,
   match r3 with
   | inl e => inl e
   | inr _ => r2
   end).

Definition errorMessage (e : JsError) : string :=
  match e with
  | TypeError m | TimeoutError m | ProtocolError m | PlainError m => m
  end.

Section Puppeteer.

Context {dom : Dom}.

(** The response [page.goto] resolves to: the body, base 64 encoded, and
    the content type header. *)
Record Response : Type := mkResponse {
  response_buffer : Result (option string);
  response_contentType : option string
}.

(** A tab of the browser, by what its methods will answer. *)
Record Page : Type := mkPage {
  (** [page.goto(url, ...)]: a rejection (time-out, network error) or
      the response. *)
  page_goto : string -> Result (option Response);
  (** [page.waitForSelector(selector, ...)]: the rejection, if any. *)
  page_waitForSelector : string -> option JsError;
  (** The document once the page is loaded. *)
  page_document : Document;
  (** The rejection of the n-th [page.evaluate] call for a reason of the
      browser's (the execution context is gone), before the function
      runs. *)
  page_evaluate : nat -> option JsError;
  (** The entries [ul.theme-doc-sidebar-menu > li] of the expanded
      sidebar. *)
  page_sidebar : list Li;
  (** The clock and random readings of the page. *)
  page_entropy : nat -> Entropy;
  (** The n-th [page.addStyleTag] call. *)
  page_addStyleTag : nat -> option JsError;
  page_waitForNetworkIdle : option JsError;
  (** [page.pdf({path, ...})]. *)
  page_pdf : string -> option JsError;
  page_close : option JsError
}.

(** The browser: what the coming calls of [browser.newPage()] answer, in
    call order, and what [browser.close()] answers. *)
Record Browser : Type := mkBrowser {
  browser_newPage : nat -> Result Page;
  browser_close : option JsError
}.

(** The browser as it is after [n] calls of [newPage]. *)
Definition afterNewPages (n : nat) (browser : Browser) : Browser :=
  {| browser_newPage := fun k => browser_newPage browser (n + k);
     browser_close := browser_close browser |}.

(** [page.evaluate(pageFunction, ...args)], the n-th such call on the
    page, run on the document [d]. *)
Definition evaluate {A : Type} (page : Page) (n : nat) (name : string)
  (pageFunction : Document -> Document * Result A) (d : Document)
  : Task (Document * A) :=
  call (EvEvaluate name)
       (match page_evaluate page n with
        | Some e => throw e
        | None => let '(d', r) := pageFunction d in
                  a <- r ;; ret (d', a)
        end).

(** [requestForImage(page, url)] of browser.ts. *)
Definition requestForImage (page : Page) (url : string)
  : Task (string * string) :=
  imgSrcResponse <<- call (EvGoto url) (page_goto page url) ;;
  match imgSrcResponse with
  | Some response =>
      imgSrcBuffer <<- ([], response_buffer response) ;;
      tret (Js.orEmpty imgSrcBuffer,
            Js.orEmpty (response_contentType response))
  | None => tret ("", "")
  end.

(* ================================================================== *)
(** ** Content harvester ([processSinglePage]) *)
(* ================================================================== *)

Definition contentSelector : string :=
  "div[class^=" +:+ Js.dq +:+ "docItemContainer" +:+ Js.dq
  +:+ "]>article>div[class*=" +:+ Js.dq +:+ "theme-doc-markdown" +:+ Js.dq
  +:+ "]".

(** [{ ...sidebarItem, html }]. *)
Definition withHtml (sidebarItem : SidebarItem) (html : string)
  : PageDetails :=
  {| pd_id := id sidebarItem;
     pd_title := title sidebarItem;
     pd_url := url sidebarItem;
     pd_path := path sidebarItem;
     pd_html := html |}.

(** The [try] block of [processSinglePage]. *)
Definition harvest (page : Page) (sidebarItem : SidebarItem)
  : Task PageDetails :=
  _ <<- call (EvGoto (url sidebarItem)) (page_goto page (url sidebarItem)) ;;
  _ <<- call (EvWaitForSelector contentSelector)
             (check (page_waitForSelector page contentSelector)) ;;
  expanded <<- evaluate page 0 "expandDetails" expandDetails
                        (page_document page) ;;
  stamped <<- evaluate page 1 "updateElementId"
                       (updateElementId contentSelector (id sidebarItem))
                       (fst expanded) ;;
  extracted <<- evaluate page 2 "getElementOuterHtml"
                         (getElementOuterHtml ("#" +:+ id sidebarItem))
                         (fst stamped) ;;
  let html := snd extracted in
  tret (withHtml sidebarItem html).

(** The [catch] block of [processSinglePage]. *)
Definition harvestFailed (sidebarItem : SidebarItem) (workerId : nat)
  (error : JsError) : Task PageDetails :=
  _ <<- call (EvConsoleError
                ("[Worker " +:+ numberToString (Z.of_nat workerId)
                 +:+ "] ERROR processing page " +:+ Js.dq
                 +:+ title sidebarItem +:+ Js.dq +:+ " (URL: "
                 +:+ url sidebarItem +:+ "): " +:+ errorMessage error))
             (ret tt) ;;
  tret (withHtml sidebarItem "").

(** [processSinglePage(browser, sidebarItem, { workerId })]; [browser] is
    the browser as the call finds it. *)
Definition processSinglePage (browser : Browser) (sidebarItem : SidebarItem)
  (workerId : nat) : Task PageDetails :=
  page <<- ([], browser_newPage browser 0) ;;
  _ <<- call EvNewPage (ret tt) ;;
  tryCatchFinally
    (harvest page sidebarItem)
    (harvestFailed sidebarItem workerId)
    (call EvPageClose (check (page_close page))).

(* ================================================================== *)
(** ** Worker pool ([buildPageDetailsParallel]) *)
(* ================================================================== *)

(** A worker promise between two turns of the event loop: suspended in
    [await processSinglePage(...)] for the page it claimed, or resolved
    after leaving its loop. *)
Inductive Worker : Type :=
  | Busy (pageIndexToProcess : nat)
  | Finished.

(** The variables the workers share. *)
Record Pool : Type := mkPool {
  currentIndex : nat;
  orderedPageDetails : list (option PageDetails);
  workers : list Worker
}.

(** The head of the [while (true)] loop: claim the next index, or leave
    the loop. *)
Definition claim (totalPages currentIndex : nat) : Worker * nat :=
  if currentIndex <? totalPages
  then (Busy currentIndex, S currentIndex)
  else (Finished, currentIndex).

(** [Array.from({ length: maxConcurrency }, async (_, workerId) => ...)]:
    each worker in turn runs up to its first [await]. *)
Definition startWorkers (totalPages maxConcurrency : nat) : Pool :=
  fold_left
    (fun pool (workerId : nat) =>
       let '(worker, next) := claim totalPages (currentIndex pool) in
       {| currentIndex := next;
          orderedPageDetails := orderedPageDetails pool;
          workers := workers pool ++ [worker] |})
    (seq 0 maxConcurrency)
    {| currentIndex := 0;
       orderedPageDetails := replicate totalPages None;
       workers := [] |}.

(** The page with index [i] is handed to [processSinglePage] when the
    index is claimed, and indices are claimed in increasing order, each
    claim calling [browser.newPage()] before anything else runs: the call
    for page [i] is the i-th one. *)
Definition pageTask (browser : Browser) (pagesToProcess : list SidebarItem)
  (pageIndexToProcess workerId : nat) : Task PageDetails :=
  match pagesToProcess !! pageIndexToProcess with
  | Some pageSummaryToProcess =>
      processSinglePage (afterNewPages pageIndexToProcess browser)
                        pageSummaryToProcess workerId
  | None => ([], throw (TypeError "Cannot read properties of undefined"))
  end.

(** The turn in which the page of worker [workerId] settles: a rejection
    rejects the worker promise, a value is stored at the claimed index and
    the worker goes round its loop. *)
Definition resume (browser : Browser) (pagesToProcess : list SidebarItem)
  (pool : Pool) (workerId : nat) : Result Pool :=
  match workers pool !! workerId with
  | Some (Busy pageIndexToProcess) =>
      pageDetail <- snd (pageTask browser pagesToProcess
                                  pageIndexToProcess workerId) ;;
      let '(worker, next) :=
        claim (length pagesToProcess) (currentIndex pool) in
      ret {| currentIndex := next;
             orderedPageDetails :=
               <[pageIndexToProcess := Some pageDetail]>
                 (orderedPageDetails pool);
             workers := <[workerId := worker]> (workers pool) |}
  | _ => ret pool
  end.

(** The workers suspended on a page. *)
Definition busyWorkers (ws : list Worker) : list nat :=
  List.filter
    (fun workerId =>
       match ws !! workerId with
       | Some (Busy _) => true
       | _ => false
       end)
    (seq 0 (length ws)).

(** The event loop until [Promise.all(workerPromises)] settles.  Which
    suspended page settles next is not in the hands of the code:
    [schedule turn] picks it among the busy workers.  A rejected worker
    rejects the whole; with no busy worker left every promise is
    resolved. *)
Fixpoint awaitAll (turns : nat) (schedule : nat -> nat) (turn : nat)
  (browser : Browser) (pagesToProcess : list SidebarItem) (pool : Pool)
  : Result Pool :=
  match turns with
  | 0 => ret pool
  | S turns' =>
      match busyWorkers (workers pool) with
      | [] => ret pool
      | first :: others =>
          let workerId :=
            nth (schedule turn mod length (first :: others))
                (first :: others) first in
          pool' <- resume browser pagesToProcess pool workerId ;;
          awaitAll turns' schedule (S turn) browser pagesToProcess pool'
      end
  end.

(** [buildPageDetailsParallel(browser, sidebarItems, maxConcurrency)].
    Every turn of the loop settles one page, so [totalPages] turns are
    all it can take. *)
Definition buildPageDetailsParallel (schedule : nat -> nat)
  (browser : Browser) (sidebarItems : list SidebarItem)
  (maxConcurrency : nat) : Result (list (option PageDetails)) :=
  let pagesToProcess := extractPages sidebarItems [] in
  let totalPages := length pagesToProcess in
  pool <- awaitAll totalPages schedule 0 browser pagesToProcess
                   (startWorkers totalPages maxConcurrency) ;;
  ret (orderedPageDetails pool).

End Puppeteer.

(* ================================================================== *)
(** ** The converter ([convertDocusaurusPageToPdf]) and [main] *)
(* ================================================================== *)

Section Converter.

Context {dom : Dom}.

(** Everything a run reads that is not in the sources: Node's [fs] and
    [path], JavaScript built-ins, the launch of the browser and the order
    in which pages settle. *)
Record World : Type := mkWorld {
  fs_existsSync : string -> bool;
  fs_mkdirSync : string -> option JsError;
  (** [path.resolve(p)], which is [path.resolve(process.cwd(), p)]. *)
  path_resolve : string -> string;
  path_isAbsolute : string -> bool;
  path_dirname : string -> string;
  decodeURIComponent : string -> Result string;
  (** [parseInt(s, 10)]; [None] is [NaN]. *)
  parseInt10 : string -> option Z;
  (** [String.prototype.trim], in the page. *)
  stringTrim : string -> string;
  (** The text of [${level * 0.8}]. *)
  indentationText : nat -> string;
  (** [launchBrowser()] of browser.ts, that is [puppeteer.launch(...)]. *)
  launchBrowser : Result Browser;
  (** Which suspended page settles at each turn of the pool. *)
  settleOrder : nat -> nat
}.

(** [resolveBrowserUrl(inputPath)]. *)
Definition resolveBrowserUrl (w : World) (inputPath : string)
  : Result string :=
  if negb (Js.truthy inputPath) then ret ""
  else if String.prefix "http://" inputPath
          || String.prefix "https://" inputPath
  then ret inputPath
  else if String.prefix "file:///" inputPath
  then
    localPath <- decodeURIComponent w (Js.substringFrom 7 inputPath) ;;
    if negb (fs_existsSync w localPath)
    then throw (PlainError ("File not found: " +:+ localPath
                            +:+ " (from URL: " +:+ inputPath +:+ ")"))
    else ret inputPath
  else
    let absoluteFilePath :=
      if String.prefix "classpath:" inputPath
      then path_resolve w (Js.substringFrom 10 inputPath)
      else if String.prefix "file:" inputPath
      then path_resolve w (Js.substringFrom 5 inputPath)
      else path_resolve w inputPath in
    if negb (fs_existsSync w absoluteFilePath)
    then throw (PlainError ("Local file not found at resolved path: "
                            +:+ absoluteFilePath +:+ " (from input: "
                            +:+ inputPath +:+ ")"))
    else ret ("file:///" +:+ Js.replaceChar "\" "/" absoluteFilePath).

(** [PdfGenerationOptions]; a number that may be [NaN] is an option. *)
Record PdfGenerationOptions : Type := mkOptions {
  docsUrl : string;
  pdfPath : string;
  pdfCoverImage : option string;
  pdfMarginMm : Z;
  pageConcurrency : option Z
}.

(** The length [Array.from({ length })] gives an array for a number that
    may be [NaN] or negative. *)
Definition arrayLength (n : option Z) : nat :=
  match n with
  | Some z => Z.to_nat z
  | None => 0
  end.

(** [buildSidebarItems(page, url)], nested in the converter; the last
    call returns [extractDocusaurusSidebarItems()], that is
    [parseListItems] of the top-level entries. *)
Definition buildSidebarItems (w : World) (page : Page) (url : string)
  : Task (list SidebarItem) :=
  _ <<- call (EvGoto url) (page_goto page url) ;;
  _ <<- call (EvWaitForSelector "#__docusaurus")
             (check (page_waitForSelector page "#__docusaurus")) ;;
  _ <<- call (EvEvaluate "expandDocusaurusSidebar")
             (check (page_evaluate page 0)) ;;
  call (EvEvaluate "extractDocusaurusSidebarItems")
       (check (page_evaluate page 1) ;;;
        ret (fst (parseListItems (stringTrim w) (page_entropy page)
                                 (page_sidebar page) 0))).

(** The cover image of stage 1: the values of [pdfCoverImage],
    [coverImageBase64] and [coverImageMimeType] after it. *)
Definition requestCover (w : World) (page : Page)
  (pdfCoverImage : option string)
  : Task (option string * option string * option string) :=
  if Js.truthyOpt pdfCoverImage
  then
    match resolveBrowserUrl w (Js.orEmpty pdfCoverImage) with
    | inl pathError =>
        _ <<- call (EvConsoleError
                      ("[Stage 1/4 - Setup] ERROR: Could not resolve cover image path "
                       +:+ Js.dq +:+ Js.orEmpty pdfCoverImage +:+ Js.dq
                       +:+ ". Skipping cover page. Details: "
                       +:+ errorMessage pathError))
                   (ret tt) ;;
        tret (None, None, None)
    | inr resolvedCoverImageUrl =>
        image <<- requestForImage page resolvedCoverImageUrl ;;
        tret (pdfCoverImage, Some (fst image), Some (snd image))
    end
  else tret (pdfCoverImage, None, None).

(** The [try] block of the converter from the first [newPage] on. *)
Definition convertStages (w : World) (browser : Browser)
  (options : PdfGenerationOptions) : Task unit :=
  page <<- ([], browser_newPage browser 0) ;;
  _ <<- call EvNewPage (ret tt) ;;
  cover <<- requestCover w page (pdfCoverImage options) ;;
  let '(coverImage, coverImageBase64, coverImageMimeType) := cover in
  sidebarItems <<- buildSidebarItems w page (docsUrl options) ;;
  pageDetails <<- ([], buildPageDetailsParallel
                         (settleOrder w) (afterNewPages 1 browser)
                         sidebarItems
                         (arrayLength (pageConcurrency options))) ;;
  html <<- ([], mergeHtml (indentationText w) coverImage coverImageBase64
                          coverImageMimeType sidebarItems pageDetails) ;;
  _ <<- call (EvSetBody html) (check (page_evaluate page 2)) ;;
  _ <<- call (EvEvaluate "removeLazyLoading") (check (page_evaluate page 3)) ;;
  _ <<- (if Js.truthyOpt coverImage
         then ([], check (page_addStyleTag page 0))
         else tret tt) ;;
  _ <<- ([], check (page_addStyleTag page
                      (if Js.truthyOpt coverImage then 1 else 0))) ;;
  _ <<- call (EvEvaluate "rewriteLinks") (check (page_evaluate page 4)) ;;
  _ <<- call (EvEvaluate "removeElements") (check (page_evaluate page 5)) ;;
  _ <<- ([], check (page_waitForNetworkIdle page)) ;;
  _ <<- ([], check (page_pdf page (pdfPath options))) ;;
  call (EvPdf (pdfPath options)) (ret tt).

(** The [catch] block of the converter: the error is logged, nothing is
    thrown again. *)
Definition conversionFailed (error : JsError) : Task unit :=
  call (EvConsoleError
          ("[PDF Conversion ERROR] An error occurred during the PDF conversion process: "
           +:+ errorMessage error))
       (ret tt).

(** [convertDocusaurusPageToPdf(options)].  [browser] is assigned by the
    first statement of the [try] block; the [finally] block closes it if
    it is assigned. *)
Definition convertDocusaurusPageToPdf (w : World)
  (options : PdfGenerationOptions) : Task unit :=
  match launchBrowser w with
  | inl error =>
      tryCatchFinally ([], throw error) conversionFailed (tret tt)
  | inr browser =>
      tryCatchFinally (convertStages w browser options) conversionFailed
                      (call EvBrowserClose (check (browser_close browser)))
  end.

(** The options as [commander] hands them over: a missing flag is
    [undefined], the two numbers have default texts. *)
Record ProgramOpts : Type := mkProgramOpts {
  opt_docsUrl : option string;
  opt_pdfPath : option string;
  opt_pdfCoverImage : option string;
  opt_pdfMarginMm : string;
  opt_pageConcurrency : string
}.

(** How the process ends: [process.exit(code)], or the end of [main]
    with the exit code 0 of a drained event loop. *)
Definition ExitCode : Type := nat.

(** The [try] block of [main] after the two required options are there. *)
Definition mainBody (w : World) (opts : ProgramOpts) : Task unit :=
  let marginMm :=
    match parseInt10 w (opt_pdfMarginMm opts) with
    | Some n => n
    | None => 10%Z
    end in
  let path0 := Js.orEmpty (opt_pdfPath opts) in
  let path1 := if Js.endsWith path0 ".pdf" then path0 else path0 +:+ ".pdf" in
  let path2 := if path_isAbsolute w path1 then path1
               else path_resolve w path1 in
  let outputDir := path_dirname w path2 in
  _ <<- (if fs_existsSync w outputDir then tret tt
         else ([], check (fs_mkdirSync w outputDir))) ;;
  convertDocusaurusPageToPdf w
    {| docsUrl := Js.orEmpty (opt_docsUrl opts);
       pdfPath := path2;
       pdfCoverImage := opt_pdfCoverImage opts;
       pdfMarginMm := marginMm;
       pageConcurrency := parseInt10 w (opt_pageConcurrency opts) |}.

(** [main()]: [program.error(...)] prints the message and exits with
    code 1; an error caught by [main] exits with code 1. *)
Definition main (w : World) (opts : ProgramOpts) : list Event * ExitCode :=
  if negb (Js.truthyOpt (opt_docsUrl opts))
  then ([EvConsoleError "Missing required option: --docs-url <url>"], 1)
  else if negb (Js.truthyOpt (opt_pdfPath opts))
  then ([EvConsoleError "Missing required option: --pdf-path <path>"], 1)
  else
    match mainBody w opts with
    | (events, inl error) =>
        (events ++ [EvConsoleError ("[App ERROR] Critical error: "
                                    +:+ errorMessage error)], 1)
    | (events, inr _) => (events, 0)
    end.

End Converter.

(* ================================================================== *)
(** ** A small document model and the scenario of the specification *)
(* ================================================================== *)

(** An element that answers to one structural selector and to ['#']
    followed by its id. *)
Record ToyElement : Type := mkToy {
  toy_selector : string;
  toy_id : string;
  toy_pageBreakAfter : string;
  toy_inner : string
}.

Definition toyMatches (selector : string) (el : ToyElement) : bool :=
  String.eqb selector (toy_selector el)
  || String.eqb selector ("#" +:+ toy_id el).

Fixpoint toyFind (selector : string) (position : nat) (d : list ToyElement)
  : option nat :=
  match d with
  | [] => None
  | el :: d' => if toyMatches selector el then Some position
                else toyFind selector (S position) d'
  end.

Definition toyOuterHTML (d : list ToyElement) (position : nat) : string :=
  match d !! position with
  | Some el =>
      "<div id=" +:+ Js.dq +:+ toy_id el +:+ Js.dq
      +:+ (if Js.truthy (toy_pageBreakAfter el)
           then " style=" +:+ Js.dq +:+ "page-break-after: "
                +:+ toy_pageBreakAfter el +:+ ";" +:+ Js.dq
           else "")
      +:+ ">" +:+ toy_inner el +:+ "</div>"
  | None => ""
  end.

(** Documents as lists of such elements, elements as positions. *)
Definition toyDom : Dom :=
  {| Document := list ToyElement;
     Element := nat;
     querySelector := fun d selector => toyFind selector 0 d;
     querySelectorAll := fun d selector =>
       List.filter (fun position =>
                      match d !! position with
                      | Some el => toyMatches selector el
                      | None => false
                      end)
                   (seq 0 (length d));
     elementQuerySelector := fun _ _ _ => None;
     click := fun _ d => d;
     setId := fun position newId d =>
       alter (fun el => mkToy (toy_selector el) newId
                              (toy_pageBreakAfter el) (toy_inner el))
             position d;
     setPageBreakAfter := fun position value d =>
       alter (fun el => mkToy (toy_selector el) (toy_id el) value
                              (toy_inner el))
             position d;
     outerHTML := toyOuterHTML |}.

(** A page that loads, holding one content element; its navigation times
    out when [timesOut] is set. *)
Definition toyPage (timesOut : bool) (text : string) : @Page toyDom :=
  @mkPage toyDom
    (fun _ =>
       if timesOut
       then throw (TimeoutError "Navigation timeout of 60000 ms exceeded")
       else ret None)
    (fun _ => None)
    [mkToy contentSelector "" "" text]
    (fun _ => None)
    []
    (fun k => mkEntropy (1712345678901 + Z.of_nat k) "0.4fzyo82mvyr")
    (fun _ => None)
    None
    (fun _ => None)
    None.

(** A browser every page of which loads, but for the navigation of the
    pages [timesOut] selects. *)
Definition toyBrowser (timesOut : nat -> bool) : @Browser toyDom :=
  @mkBrowser toyDom (fun n => ret (toyPage (timesOut n) "Hello")) None.


(** The navigation tree of the end-to-end scenario. *)
Definition scenarioTree : list SidebarItem :=
  [ {| id := "a"; title := "Intro"; path := "/docs/intro";
       url := "https://x/docs/intro"; children := [] |};
    {| id := "b"; title := "Guides"; path := ""; url := "#";
       children :=
         [ {| id := "c"; title := "Setup"; path := "/docs/setup";
              url := "https://x/docs/setup"; children := [] |} ] |} ].

(** Clock readings one millisecond apart with one random number. *)
Definition exampleSource (k : nat) : Entropy :=
  mkEntropy (1712345678901 + Z.of_nat k) "0.4fzyo82mvyr".

(** A world with a working file system in which the launch of the browser
    has the given outcome. *)
Definition toyWorld (launch : Result (@Browser toyDom)) : @World toyDom :=
  @mkWorld toyDom
    (fun _ => true)
    (fun _ => None)
    (fun p => "/work/" +:+ p)
    (fun _ => false)
    (fun _ => "/work")
    (fun s => ret s)
    (fun _ => Some 4%Z)
    (fun s => s)
    (fun _ => "0")
    launch
    (fun turn => turn).

(** A command line with both required options. *)
Definition validOpts : ProgramOpts :=
  {| opt_docsUrl := Some "https://x/docs/intro";
     opt_pdfPath := Some "out.pdf";
     opt_pdfCoverImage := None;
     opt_pdfMarginMm := "10";
     opt_pageConcurrency := "4" |}.

(* ================================================================== *)
(** ** Vocabulary of the properties *)
(* ================================================================== *)

Definition isNewPage (ev : Event) : bool :=
  match ev with EvNewPage => true | _ => false end.

Definition isPageClose (ev : Event) : bool :=
  match ev with EvPageClose => true | _ => false end.

(** An event of the page between its opening and its closing. *)
Definition inPage (ev : Event) : Prop :=
  isNewPage ev = false /\ isPageClose ev = false.


(** The empty slots of the output array. *)
Definition countNone {A : Type} (out : list (option A)) : nat :=
  length (List.filter (fun o => match o with None => true | Some _ => false end)
                      out).


(* ================================================================== *)
(** ** More of the sources *)
(* ================================================================== *)

(** An [<img>] element of the merged document, by its [loading]
    attribute ([None] when the attribute is absent). *)
Record Img : Type := mkImg { loading : option string }.

(** The test of the selector [img[loading="lazy"]]. *)
Definition isLazy (img : Img) : bool :=
  match loading img with
  | Some value => String.eqb value "lazy"
  | None => false
  end.

(** [removeLazyLoading()] over the [<img>] elements of the document in
    document order: the document after it, and the number of images it
    logs. *)
Definition removeLazyLoading (doc : list Img) : list Img * nat :=
  let lazyImages := List.filter isLazy doc in
  (map (fun img => if isLazy img then mkImg None else img) doc,
   length lazyImages).

(** [pageDetails.map(it => [it.path, it.id])] of stage 3 of the
    converter. *)
Definition pathToAnchorsOf (pageDetails : list PageDetails)
  : list (string * string) :=
  map (fun it => (pd_path it, pd_id it)) pageDetails.

(** The title [parseListItems] gives an entry with the link [a]. *)
Definition anchorTitle (trim : string -> string) (a : HTMLAnchorElement)
  : string :=
  Js.orEmpty (match textContent a with
              | Some t => if Js.truthy t then Some (trim t) else None
              | None => None
              end).

(** The link elements of the entries that reach the navigation tree, in
    the order of the DOM. *)
Fixpoint linkedAnchors (li : Li) : list HTMLAnchorElement :=
  match li_a li with
  | None => []
  | Some a =>
      a :: match li_subList li with
           | Some subList => flat_map linkedAnchors subList
           | None => []
           end
  end.

(** The sidebar of the scenario in the DOM, with an entry that has no
    link element. *)
Definition scenarioSidebar : list Li :=
  [ mkLi (Some (mkAnchor (Some "Intro") (Some "/docs/intro")
                         "https://x/docs/intro")) None;
    mkLi None
         (Some [ mkLi (Some (mkAnchor (Some "Hidden") (Some "/docs/hidden")
                                      "https://x/docs/hidden")) None ]);
    mkLi (Some (mkAnchor (Some "Guides") (Some "#") "#"))
         (Some [ mkLi (Some (mkAnchor (Some "Setup") (Some "/docs/setup")
                                      "https://x/docs/setup")) None ]) ].

Definition isConsoleError (ev : Event) : bool :=
  match ev with EvConsoleError _ => true | _ => false end.


(** The Puppeteer calls of a harvest, in the order of the [try] block. *)
Definition harvestCalls (sidebarItem : SidebarItem) : list Event :=
  [EvGoto (url sidebarItem); EvWaitForSelector contentSelector;
   EvEvaluate "expandDetails"; EvEvaluate "updateElementId";
   EvEvaluate "getElementOuterHtml"].

(** A document model in which an id selector finds an element only if
    the id is made of letters, digits, hyphens and underscores, as in
    CSS, where other characters end the identifier. *)
Definition cssDom : Dom :=
  {| Document := list ToyElement;
     Element := nat;
     querySelector := fun d selector =>
       match selector with
       | String "#" name =>
           if allChars (fun x => isLetter x || isDigit x
                                 || Ascii.eqb x "-" || Ascii.eqb x "_") name
           then toyFind selector 0 d
           else None
       | _ => toyFind selector 0 d
       end;
     querySelectorAll := fun _ _ => [];
     elementQuerySelector := fun _ _ _ => None;
     click := fun _ d => d;
     setId := fun position newId d =>
       alter (fun el => mkToy (toy_selector el) newId
                              (toy_pageBreakAfter el) (toy_inner el))
             position d;
     setPageBreakAfter := fun position value d =>
       alter (fun el => mkToy (toy_selector el) (toy_id el) value
                              (toy_inner el))
             position d;
     outerHTML := toyOuterHTML |}.

(** A page of [cssDom] that loads and holds one content element. *)
Definition cssPage : @Page cssDom :=
  @mkPage cssDom
    (fun _ => ret None)
    (fun _ => None)
    [mkToy contentSelector "" "" "Hello"]
    (fun _ => None)
    []
    exampleSource
    (fun _ => None)
    None
    (fun _ => None)
    None.


(* ================================================================== *)
(** * Properties *)
(* ================================================================== *)

Section SidebarInduction.

Variable P : SidebarItem -> Prop.
Hypothesis step :
  forall t i p u cs, Forall P cs -> P (mkSidebarItem t i p u cs).

(** Induction over a navigation node with the hypothesis available for
    every child. *)
Fixpoint SidebarItem_forall_ind (n : SidebarItem) : P n :=
  match n with
  | mkSidebarItem t i p u cs =>
      step t i p u cs
        ((fix go (l : list SidebarItem) : Forall P l :=
            match l with
            | [] => @List.Forall_nil _ P
            | c :: l' =>
                @List.Forall_cons _ P c l' (SidebarItem_forall_ind c) (go l')
            end) cs)
  end.

End SidebarInduction.

(* ------------------------------------------------------------------ *)
(** ** Strings *)
(* ------------------------------------------------------------------ *)

Lemma string_length_app (a b : string) :
  String.length (a +:+ b) = String.length a + String.length b.
Proof. induction a as [|c a IH]; simpl; [reflexivity | now rewrite IH]. Qed.

Lemma substring_whole (s : string) : substring 0 (String.length s) s = s.
Proof. induction s as [|c s IH]; simpl; [reflexivity | now rewrite IH]. Qed.

Lemma substring_skip_prefix (p s : string) :
  substring (String.length p) (String.length s) (p +:+ s) = s.
Proof.
  induction p as [|c p IH]; simpl; [apply substring_whole | exact IH].
Qed.

Lemma substring_split (s : string) (n : nat) :
  n <= String.length s ->
  s = substring 0 n s +:+ substring n (String.length s - n) s.
Proof.
  revert n; induction s as [|c s IH]; intros [|n] Hn; simpl in *;
    try reflexivity; try lia.
  - now rewrite substring_whole.
  - change (String c s
            = String c (substring 0 n s
                        +:+ substring n (String.length s - n) s)).
    f_equal. apply IH. lia.
Qed.

Lemma endsWith_spec (s suffix : string) :
  Js.endsWith s suffix = true <-> exists p : string, s = p +:+ suffix.
Proof.
  unfold Js.endsWith. rewrite andb_true_iff, Nat.leb_le, String.eqb_eq.
  split.
  - intros [Hlen Hsub].
    exists (substring 0 (String.length s - String.length suffix) s).
    pose proof (substring_split s (String.length s - String.length suffix))
      as Hs.
    replace (String.length s - (String.length s - String.length suffix))
      with (String.length suffix) in Hs by lia.
    rewrite Hsub in Hs. apply Hs. lia.
  - intros [p ->]. rewrite string_length_app. split; [lia|].
    replace (String.length p + String.length suffix - String.length suffix)
      with (String.length p) by lia.
    apply substring_skip_prefix.
Qed.

Lemma truthy_spec (s : string) : Js.truthy s = true <-> s <> "".
Proof.
  unfold Js.truthy. rewrite negb_true_iff. split.
  - intros H ->. discriminate.
  - intros H. apply String.eqb_neq. exact H.
Qed.

(* ------------------------------------------------------------------ *)
(** ** Tree flattener *)
(* ------------------------------------------------------------------ *)

Lemma isPage_LeafPage (n : SidebarItem) : isPage n = true <-> LeafPage n.
Proof.
  unfold isPage, LeafPage.
  rewrite !andb_true_iff, !negb_true_iff, Nat.eqb_eq, truthy_spec.
  rewrite String.eqb_neq, <- not_true_iff_false, endsWith_spec.
  split.
  - intros [[[Hc Hu] Hh] He]. repeat split; try assumption.
    now destruct (children n).
  - intros (Hc & Hu & Hh & He). repeat split; try assumption.
    now rewrite Hc.
Qed.

Lemma fold_extractPagesItem (items acc : list SidebarItem) :
  Forall (fun n => forall a, extractPagesItem n a
                             = a ++ List.filter isPage (preorderItem n)) items ->
  fold_left (fun a n => extractPagesItem n a) items acc
  = acc ++ List.filter isPage (flat_map preorderItem items).
Proof.
  intros HF; revert acc.
  induction HF as [|n ns Hn _ IH]; intros acc; simpl.
  - now rewrite app_nil_r.
  - rewrite IH, Hn, List.filter_app, app_assoc. reflexivity.
Qed.

Lemma extractPagesItem_preorder (n : SidebarItem) (acc : list SidebarItem) :
  extractPagesItem n acc = acc ++ List.filter isPage (preorderItem n).
Proof.
  revert acc. induction n as [t i p u cs IH] using SidebarItem_forall_ind.
  intros acc. cbn [extractPagesItem preorderItem children List.filter].
  set (item := mkSidebarItem t i p u cs).
  destruct cs as [|c cs].
  - cbn. destruct (isPage item); [reflexivity | now rewrite app_nil_r].
  - replace (0 <? length (c :: cs)) with true by reflexivity.
    rewrite (fold_extractPagesItem _ _ IH).
    destruct (isPage item); [|reflexivity].
    now rewrite <- app_assoc.
Qed.

Lemma extractPages_preorder (items acc : list SidebarItem) :
  extractPages items acc = acc ++ List.filter isPage (preorder items).
Proof.
  apply fold_extractPagesItem, Forall_forall.
  intros n _ a. apply extractPagesItem_preorder.
Qed.

(** C3.  The flattened list holds exactly the nodes of the tree that have
    no children, a non-empty url that is not ['#'] and does not end in
    ['/#'], in pre-order depth-first document order; a node with children
    is descended into and never emitted. *)
Theorem extractPages_leaf_selection (items : list SidebarItem) :
  extractPages items [] = List.filter isPage (preorder items)
  /\ (forall n, isPage n = true <-> LeafPage n)
  /\ (forall n, In n (extractPages items []) <->
                In n (preorder items) /\ LeafPage n)
  /\ (forall n, In n (extractPages items []) -> children n = []).
Proof.
  assert (E : extractPages items [] = List.filter isPage (preorder items))
    by apply extractPages_preorder.
  split; [exact E|]. split; [exact isPage_LeafPage|]. split.
  - intros n. rewrite E, filter_In, isPage_LeafPage. reflexivity.
  - intros n. rewrite E, filter_In, isPage_LeafPage. intros [_ [H _]]. exact H.
Qed.

(* ------------------------------------------------------------------ *)
(** ** Link rewriter *)
(* ------------------------------------------------------------------ *)

Lemma rewriteHref_anchorOf (m : list (string * string)) (h : string) :
  rewriteHref m h = (fun a => "#" +:+ a) <$> anchorOf m h.
Proof.
  unfold anchorOf. induction m as [|[p a] m IH]; simpl; [reflexivity|].
  destruct (String.eqb h p); [reflexivity | exact IH].
Qed.

Lemma anchorOf_None (m : list (string * string)) (h : string) :
  anchorOf m h = None <-> ~ In h (map fst m).
Proof.
  unfold anchorOf. induction m as [|[p a] m IH]; simpl.
  - tauto.
  - destruct (String.eqb_spec h p) as [->|Hne]; simpl.
    + split; [discriminate | intros H; exfalso; apply H; now left].
    + rewrite IH. split; [intros H [E|E]; [congruence | tauto] | tauto].
Qed.

Lemma anchorOf_Some_In (m : list (string * string)) (h a : string) :
  anchorOf m h = Some a -> In (h, a) m.
Proof.
  unfold anchorOf. induction m as [|[p b] m IH]; simpl; [discriminate|].
  destruct (String.eqb_spec h p) as [->|Hne]; simpl.
  - intros [= ->]. now left.
  - intros H. right. apply IH, H.
Qed.

Lemma anchorOf_unique_key (m : list (string * string)) (h a : string) :
  List.NoDup (map fst m) -> In (h, a) m -> anchorOf m h = Some a.
Proof.
  unfold anchorOf. induction m as [|[p b] m IH]; simpl; [tauto|].
  intros Hnd [E|Hin].
  - injection E as -> ->. now rewrite String.eqb_refl.
  - inversion Hnd as [|? ? Hnotin Hnd']; subst.
    destruct (String.eqb_spec h p) as [->|Hne]; simpl.
    + exfalso. apply Hnotin. apply (in_map fst) in Hin. exact Hin.
    + apply IH; assumption.
Qed.

Lemma rewriteLinks_lookup (m : list (string * string)) (doc : list Link)
  (i : nat) :
  rewriteLinks m doc !! i
  = (fun element =>
       match href element with
       | Some h => match anchorOf m h with
                   | Some a => mkLink (Some ("#" +:+ a))
                   | None => element
                   end
       | None => element
       end) <$> doc !! i.
Proof.
  unfold rewriteLinks. rewrite list_lookup_fmap.
  destruct (doc !! i) as [[[h|]]|]; simpl; try reflexivity.
  rewrite rewriteHref_anchorOf. now destruct (anchorOf m h).
Qed.

Lemma rewriteLinks_fixed (m : list (string * string)) (doc : list Link) :
  Forall (fun element =>
            match href element with
            | Some h => ~ In h (map fst m)
            | None => True
            end) doc ->
  rewriteLinks m doc = doc.
Proof.
  induction 1 as [|[[h|]] doc Hel _ IH]; simpl in *; [reflexivity| |].
  - apply anchorOf_None in Hel. rewrite rewriteHref_anchorOf, Hel. simpl.
    f_equal. exact IH.
  - f_equal. exact IH.
Qed.

(** The map of the counterexample: the second key is the rewritten form of
    the first entry's anchor. *)
Definition chainedMap : list (string * string) :=
  [("/docs/setup", "c"); ("#c", "d")].

(** C4, as stated, fails: a second pass rewrites an href produced by the
    first one when that href is itself a key of the map. *)
Lemma rewriteLinks_second_pass_rewrites :
  rewriteLinks chainedMap
    (rewriteLinks chainedMap [mkLink (Some "/docs/setup")])
  <> rewriteLinks chainedMap [mkLink (Some "/docs/setup")].
Proof. vm_compute. discriminate. Qed.

(** C4 (amended).  One pass replaces the href of every link whose href is
    string-equal to a key of the map by ['#'] followed by the anchor of
    that key, and leaves every other link as it is (a link without href,
    an href that is no key, such as one differing by a trailing slash);
    a second pass changes nothing provided no key of the map is ['#']
    followed by an anchor of the map. *)
Theorem rewriteLinks_exact_match_idempotent
  (m : list (string * string)) (doc : list Link) :
  length (rewriteLinks m doc) = length doc
  /\ (forall i h a,
        doc !! i = Some (mkLink (Some h)) -> anchorOf m h = Some a ->
        rewriteLinks m doc !! i = Some (mkLink (Some ("#" +:+ a))))
  /\ (forall h a, List.NoDup (map fst m) -> In (h, a) m ->
                  anchorOf m h = Some a)
  /\ (forall h a, anchorOf m h = Some a -> In (h, a) m)
  /\ (forall i element,
        doc !! i = Some element ->
        (forall h, href element = Some h -> ~ In h (map fst m)) ->
        rewriteLinks m doc !! i = Some element)
  /\ (forall p, In (p +:+ "/") (map fst m) -> ~ In p (map fst m) ->
                rewriteLinks m [mkLink (Some p)] = [mkLink (Some p)])
  /\ ((forall p a, In (p, a) m -> ~ In ("#" +:+ a) (map fst m)) ->
      rewriteLinks m (rewriteLinks m doc) = rewriteLinks m doc).
Proof.
  repeat split.
  - unfold rewriteLinks. apply length_map.
  - intros i h a Hi Ha. rewrite rewriteLinks_lookup, Hi. simpl.
    now rewrite Ha.
  - intros h a. apply anchorOf_unique_key.
  - intros h a. apply anchorOf_Some_In.
  - intros i [[h|]] Hi Hno; rewrite rewriteLinks_lookup, Hi; simpl;
      [|reflexivity].
    specialize (Hno h eq_refl). apply anchorOf_None in Hno.
    now rewrite Hno.
  - intros p _ Hp. apply rewriteLinks_fixed. constructor; [exact Hp|constructor].
  - intros Hfresh. apply rewriteLinks_fixed. apply List.Forall_forall.
    intros element Hin. unfold rewriteLinks in Hin.
    apply in_map_iff in Hin as [[[h|]] [<- _]]; simpl; [|exact I].
    rewrite rewriteHref_anchorOf.
    destruct (anchorOf m h) as [a|] eqn:Ha; simpl.
    + apply (Hfresh h). now apply anchorOf_Some_In.
    + now apply anchorOf_None.
Qed.

(** A map and a document on which the hypothesis of the second pass holds:
    the end-to-end scenario of the pipeline. *)
Definition scenarioMap : list (string * string) :=
  [("/docs/intro", "a"); ("/docs/setup", "c")].

Definition scenarioDoc : list Link :=
  [mkLink (Some "/docs/setup"); mkLink (Some "/docs/setup/");
   mkLink (Some "https://example.org/"); mkLink None].

Lemma rewriteLinks_exact_match_idempotent_witness :
  rewriteLinks scenarioMap scenarioDoc !! 0 = Some (mkLink (Some "#c"))
  /\ rewriteLinks scenarioMap scenarioDoc !! 1
     = Some (mkLink (Some "/docs/setup/"))
  /\ rewriteLinks scenarioMap (rewriteLinks scenarioMap scenarioDoc)
     = rewriteLinks scenarioMap scenarioDoc.
Proof.
  destruct (rewriteLinks_exact_match_idempotent scenarioMap scenarioDoc)
    as (_ & Hhit & _ & _ & Hmiss & _ & Hidem).
  split; [|split].
  - apply (Hhit 0 "/docs/setup" "c"); reflexivity.
  - apply (Hmiss 1 (mkLink (Some "/docs/setup/"))); [reflexivity|].
    intros h [= <-]. vm_compute.
    intros [H|[H|[]]]; discriminate H.
  - apply Hidem. intros p a Hin. vm_compute in Hin.
    destruct Hin as [H|[H|[]]]; injection H as <- <-; vm_compute;
      intros [H|[H|[]]]; discriminate H.
Defined.

(* ------------------------------------------------------------------ *)
(** ** Navigation extractor *)
(* ------------------------------------------------------------------ *)

Section LiInduction.

Variable P : Li -> Prop.
Hypothesis leaf : forall a, P (mkLi a None).
Hypothesis node : forall a subList, Forall P subList -> P (mkLi a (Some subList)).

(** Induction over a sidebar entry with the hypothesis available for
    every entry of its nested list. *)
Fixpoint Li_forall_ind (li : Li) : P li :=
  match li with
  | mkLi a None => leaf a
  | mkLi a (Some subList) =>
      node a subList
        ((fix go (l : list Li) : Forall P l :=
            match l with
            | [] => @List.Forall_nil _ P
            | c :: l' => @List.Forall_cons _ P c l' (Li_forall_ind c) (go l')
            end) subList)
  end.

End LiInduction.

Section SidebarFacts.

Variable trim : string -> string.
Variable source : nat -> Entropy.

#[local] Abbreviation parseItem := (parseListItem trim source).
#[local] Abbreviation parseItems := (parseListItems trim source).

(** The item built for an entry that has a link element. *)
Definition itemOf (a : HTMLAnchorElement) (kids : list SidebarItem)
  (calls : nat) : SidebarItem :=
  {| id := generateValidHtmlId (source calls);
     title := Js.orEmpty
                (match textContent a with
                 | Some t => if Js.truthy t then Some (trim t) else None
                 | None => None
                 end);
     path := Js.orEmpty (getAttributeHref a);
     url := hrefProperty a;
     children := kids |}.

Lemma parseListItem_skip (subList : option (list Li)) (calls : nat) :
  parseItem (mkLi None subList) calls = (None, calls).
Proof. reflexivity. Qed.

Lemma parseListItem_link (a : HTMLAnchorElement)
  (subList : option (list Li)) (calls : nat) :
  parseItem (mkLi (Some a) subList) calls
  = let '(kids, calls1) :=
      match subList with
      | Some l => parseItems l calls
      | None => ([], calls)
      end in
    (Some (itemOf a kids calls1), S calls1).
Proof. reflexivity. Qed.

Lemma parseListItems_acc (lis : list Li) (acc : list SidebarItem)
  (calls : nat) :
  fold_left
    (fun '(sidebarItems, c) li =>
       match parseItem li c with
       | (Some item, c') => (sidebarItems ++ [item], c')
       | (None, c') => (sidebarItems, c')
       end)
    lis (acc, calls)
  = (acc ++ fst (parseItems lis calls), snd (parseItems lis calls)).
Proof.
  unfold parseListItems. revert acc calls.
  induction lis as [|li lis IH]; intros acc calls; simpl.
  - now rewrite app_nil_r.
  - destruct (parseItem li calls) as [[item|] c'].
    + rewrite (IH (acc ++ [item])), (IH [item]). simpl.
      now rewrite <- app_assoc.
    + apply IH.
Qed.

Lemma parseListItems_cons (li : Li) (lis : list Li) (calls : nat) :
  parseItems (li :: lis) calls
  = let '(o, c') := parseItem li calls in
    let '(rest, c'') := parseItems lis c' in
    (match o with Some item => item :: rest | None => rest end, c'').
Proof.
  unfold parseListItems at 1. simpl.
  destruct (parseItem li calls) as [[item|] c'].
  - rewrite parseListItems_acc.
    now destruct (parseItems lis c').
  - fold (parseItems lis c'). now destruct (parseItems lis c').
Qed.

Lemma parseListItems_app (l1 l2 : list Li) (calls : nat) :
  parseItems (l1 ++ l2) calls
  = let '(r1, c1) := parseItems l1 calls in
    let '(r2, c2) := parseItems l2 c1 in
    (r1 ++ r2, c2).
Proof.
  revert calls. induction l1 as [|li l1 IH]; intros calls.
  - simpl. change (parseItems [] calls) with (@nil SidebarItem, calls).
    now destruct (parseItems l2 calls).
  - simpl. rewrite !parseListItems_cons.
    destruct (parseItem li calls) as [o c']. rewrite IH.
    destruct (parseItems l1 c') as [r1 c1].
    destruct (parseItems l2 c1) as [r2 c2].
    now destruct o.
Qed.

Lemma parseListItems_flat_map (f : Li -> list Li) (lis : list Li) :
  Forall (fun li => forall c, parseItems (f li) c = parseItems [li] c) lis ->
  forall c, parseItems (flat_map f lis) c = parseItems lis c.
Proof.
  induction 1 as [|li lis Hli _ IH]; intros c; [reflexivity|].
  simpl. rewrite parseListItems_app, Hli.
  change (li :: lis) with ([li] ++ lis). rewrite parseListItems_app.
  destruct (parseItems [li] c) as [r1 c1]. now rewrite IH.
Qed.

Lemma parseListItems_pruneLi (li : Li) (calls : nat) :
  parseItems (pruneLi li) calls = parseItems [li] calls.
Proof.
  revert calls.
  induction li as [[a|]|[a|] subList IH] using Li_forall_ind;
    intros calls; try reflexivity.
  cbn [pruneLi li_a li_subList].
  rewrite !parseListItems_cons, !parseListItem_link.
  now rewrite (parseListItems_flat_map pruneLi subList IH).
Qed.

Lemma parseListItems_prune (lis : list Li) (calls : nat) :
  parseItems (flat_map pruneLi lis) calls = parseItems lis calls.
Proof.
  apply parseListItems_flat_map, List.Forall_forall.
  intros li _ c. apply parseListItems_pruneLi.
Qed.

Lemma parseListItems_count_forall (lis : list Li) :
  Forall (fun li => forall c,
            length (preorder (fst (parseItems [li] c))) = linkedCount li)
         lis ->
  forall c, length (preorder (fst (parseItems lis c)))
            = list_sum (map linkedCount lis).
Proof.
  induction 1 as [|li lis Hli _ IH]; intros c; [reflexivity|].
  change (li :: lis) with ([li] ++ lis). rewrite parseListItems_app.
  specialize (Hli c). destruct (parseItems [li] c) as [r1 c1].
  specialize (IH c1). destruct (parseItems lis c1) as [r2 c2].
  simpl in *. unfold preorder in *.
  now rewrite flat_map_app, length_app, Hli, IH.
Qed.

Lemma parseListItems_count_one (li : Li) (calls : nat) :
  length (preorder (fst (parseItems [li] calls))) = linkedCount li.
Proof.
  revert calls.
  induction li as [[a|]|[a|] subList IH] using Li_forall_ind;
    intros calls; try reflexivity.
  rewrite parseListItems_cons, parseListItem_link.
  pose proof (parseListItems_count_forall subList IH calls) as Hs.
  destruct (parseItems subList calls) as [kids c1].
  cbn [linkedCount li_a li_subList]. rewrite <- Hs. simpl.
  now rewrite app_nil_r.
Qed.

Lemma parseListItems_count (lis : list Li) (calls : nat) :
  length (preorder (fst (parseItems lis calls)))
  = list_sum (map linkedCount lis).
Proof.
  apply parseListItems_count_forall, List.Forall_forall.
  intros li _ c. apply parseListItems_count_one.
Qed.

(** C10.  An entry without link element is skipped with its whole
    subtree: the extraction is the one of the list without that entry,
    whatever the entry's nested list holds; at every depth the result
    is the extraction of the pruned sidebar, and the nodes of the tree
    are as many as the entries reachable through linked entries. *)
Theorem parseListItems_skips_unlinked_subtree
  (before after : list Li) (subList : option (list Li))
  (lis : list Li) (calls : nat) :
  parseItems (before ++ mkLi None subList :: after) calls
  = parseItems (before ++ after) calls
  /\ parseItems lis calls = parseItems (flat_map pruneLi lis) calls
  /\ length (preorder (fst (parseItems lis calls)))
     = list_sum (map linkedCount lis).
Proof.
  split; [|split].
  - rewrite !parseListItems_app.
    destruct (parseItems before calls) as [r1 c1].
    rewrite parseListItems_cons, parseListItem_skip.
    now destruct (parseItems after c1).
  - symmetry. apply parseListItems_prune.
  - apply parseListItems_count.
Qed.

End SidebarFacts.

(* ------------------------------------------------------------------ *)
(** ** Identifier assigner *)
(* ------------------------------------------------------------------ *)

Lemma allChars_app (p : ascii -> bool) (a b : string) :
  allChars p (a +:+ b) = allChars p a && allChars p b.
Proof.
  induction a as [|c a IH]; [reflexivity|].
  change (allChars p (String c (a +:+ b)) = allChars p (String c a) && allChars p b).
  simpl. now rewrite IH, andb_assoc.
Qed.

Lemma allChars_substring (p : ascii -> bool) (s : string) (n m : nat) :
  allChars p s = true -> allChars p (substring n m s) = true.
Proof.
  revert n m. induction s as [|c s IH]; intros n m H.
  - now destruct n, m.
  - simpl in H. apply andb_true_iff in H as [Hc Hs].
    destruct n as [|n]; destruct m as [|m]; simpl; auto.
    rewrite Hc. simpl. now apply IH.
Qed.

Lemma allChars_weaken (p q : ascii -> bool) (s : string) :
  (forall c, p c = true -> q c = true) ->
  allChars p s = true -> allChars q s = true.
Proof.
  intros Hpq. induction s as [|c s IH]; simpl; [reflexivity|].
  rewrite !andb_true_iff. intros [Hc Hs]. split; auto.
Qed.

Lemma digits_of_uint (d : Decimal.uint) :
  allChars isDigit (NilEmpty.string_of_uint d) = true.
Proof. induction d; simpl; auto. Qed.

Lemma digits_of_uint_zero (d : Decimal.uint) :
  allChars isDigit (NilZero.string_of_uint d) = true.
Proof. destruct d; try apply digits_of_uint. reflexivity. Qed.

Lemma timestampPart_digits (e : Entropy) :
  allChars isDigit (timestampPart e) = true.
Proof.
  unfold timestampPart, numberToString, Js.substringFrom.
  destruct (Z.to_int (dateNow e)) as [d|d]; simpl NilZero.string_of_int.
  - apply allChars_substring, digits_of_uint_zero.
  - cbn [String.length substring Nat.sub]. 
    apply allChars_substring, digits_of_uint_zero.
Qed.

Lemma randomPart_alphanumeric (e : Entropy) :
  randomRendering (randomToString36 e) ->
  allChars (fun x => isDigit x || isLower x) (randomPart e) = true.
Proof.
  unfold randomPart, Js.substringFrom.
  intros [->|(frac & -> & Hfrac)]; [reflexivity|].
  change ("0." +:+ frac) with (String "0" (String "." frac)).
  cbn [String.length substring Nat.sub].
  rewrite Nat.sub_0_r, substring_whole. exact Hfrac.
Qed.

Lemma append_inj_same_length (a1 a2 b1 b2 : string) :
  String.length a1 = String.length a2 ->
  a1 +:+ b1 = a2 +:+ b2 -> a1 = a2 /\ b1 = b2.
Proof.
  revert a2. induction a1 as [|c a1 IH]; intros [|c2 a2] Hlen H;
    try discriminate Hlen.
  - now split.
  - change (String c (a1 +:+ b1) = String c2 (a2 +:+ b2)) in H.
    injection H as -> H. injection Hlen as Hlen.
    destruct (IH a2 Hlen H) as [-> ->]. now split.
Qed.

Lemma generateValidHtmlId_inj (e1 e2 : Entropy) :
  String.length (timestampPart e1) = String.length (timestampPart e2) ->
  generateValidHtmlId e1 = generateValidHtmlId e2 ->
  timestampPart e1 = timestampPart e2 /\ randomPart e1 = randomPart e2.
Proof.
  unfold generateValidHtmlId. intros Hlen H.
  apply (append_inj_same_length "id-" "id-") in H as [_ H]; [|reflexivity].
  now apply append_inj_same_length.
Qed.

Lemma generateIds_repeated (e : Entropy) (K : nat) :
  2 <= K -> ~ List.NoDup (generateIds (fun _ => e) K).
Proof.
  destruct K as [|[|K]]; try lia. intros _ Hnd.
  unfold generateIds in Hnd. simpl in Hnd.
  inversion Hnd as [|? ? Hnotin _]. apply Hnotin. now left.
Qed.

Section Relabel.

Variables trim trim' : string -> string.
Variable source : nat -> Entropy.
Variable f : HTMLAnchorElement -> HTMLAnchorElement.

Lemma treeIds_relabel_forall (lis : list Li) :
  Forall (fun li => forall c,
            treeIds (fst (parseListItems trim source [li] c))
            = treeIds (fst (parseListItems trim' source [relabelLi f li] c))
            /\ snd (parseListItems trim source [li] c)
               = snd (parseListItems trim' source [relabelLi f li] c))
         lis ->
  forall c,
    treeIds (fst (parseListItems trim source lis c))
    = treeIds (fst (parseListItems trim' source (map (relabelLi f) lis) c))
    /\ snd (parseListItems trim source lis c)
       = snd (parseListItems trim' source (map (relabelLi f) lis) c).
Proof.
  induction 1 as [|li lis Hli _ IH]; intros c; [now split|].
  change (li :: lis) with ([li] ++ lis).
  rewrite map_app, !parseListItems_app. simpl map.
  destruct (Hli c) as [H1 H2].
  destruct (parseListItems trim source [li] c) as [r1 c1].
  destruct (parseListItems trim' source [relabelLi f li] c) as [r1' c1'].
  simpl in H1, H2. subst c1'.
  destruct (IH c1) as [H3 H4].
  destruct (parseListItems trim source lis c1) as [r2 c2].
  destruct (parseListItems trim' source (map (relabelLi f) lis) c1)
    as [r2' c2'].
  simpl in *. unfold treeIds, preorder in *.
  now rewrite !flat_map_app, !map_app, H1, H3.
Qed.

Lemma treeIds_relabel_one (li : Li) (c : nat) :
  treeIds (fst (parseListItems trim source [li] c))
  = treeIds (fst (parseListItems trim' source [relabelLi f li] c))
  /\ snd (parseListItems trim source [li] c)
     = snd (parseListItems trim' source [relabelLi f li] c).
Proof.
  revert c.
  induction li as [[a|]|[a|] subList IH] using Li_forall_ind;
    intros c; try (now split).
  cbn [relabelLi li_a li_subList option_map].
  rewrite !parseListItems_cons, !parseListItem_link.
  destruct (treeIds_relabel_forall subList IH c) as [H1 H2].
  destruct (parseListItems trim source subList c) as [kids c1].
  destruct (parseListItems trim' source (map (relabelLi f) subList) c)
    as [kids' c1'].
  simpl in H1, H2. subst c1'. simpl. split; [|reflexivity].
  unfold treeIds, preorder in *. simpl. rewrite !app_nil_r.
  now rewrite H1.
Qed.

Lemma treeIds_relabel (lis : list Li) (c : nat) :
  treeIds (fst (parseListItems trim source lis c))
  = treeIds (fst (parseListItems trim' source (map (relabelLi f) lis) c)).
Proof.
  apply treeIds_relabel_forall, List.Forall_forall.
  intros li _ c'. apply treeIds_relabel_one.
Qed.

End Relabel.

(** C6, as stated, fails: the ids of two calls that read the same clock
    value and the same random number are equal, so thousands of ids need
    not be distinct. *)
Lemma generateIds_collision :
  ~ List.NoDup
      (generateIds (fun _ => mkEntropy 1712345678901 "0.4fzyo82mvyr") 2000).
Proof. apply generateIds_repeated. lia. Qed.

(** C6 (amended).  An id is ['id-'] followed by the timestamp part, made
    of decimal digits, and the random part; it starts with the letter
    [i], never with a digit, and is anchor-safe whenever the random
    number renders as base 36 digits; [K] ids are pairwise distinct when
    the timestamp parts read have one length and the pairs of timestamp
    and random part read are pairwise different; the ids of a navigation
    tree do not depend on the link texts and targets of the sidebar. *)
Theorem generateValidHtmlId_shape_and_distinctness
  (source : nat -> Entropy) (K : nat) :
  (forall e, generateValidHtmlId e = "id-" +:+ timestampPart e +:+ randomPart e
             /\ allChars isDigit (timestampPart e) = true)
  /\ (forall e, String.get 0 (generateValidHtmlId e) = Some "i"%char)
  /\ (forall e, randomRendering (randomToString36 e) ->
                allChars (fun x => isDigit x || isLower x) (randomPart e) = true
                /\ anchorSafe (generateValidHtmlId e) = true)
  /\ ((forall i j, i < K -> j < K ->
         String.length (timestampPart (source i))
         = String.length (timestampPart (source j))) ->
      (forall i j, i < K -> j < K -> i <> j ->
         (timestampPart (source i), randomPart (source i))
         <> (timestampPart (source j), randomPart (source j))) ->
      List.NoDup (generateIds source K))
  /\ (forall trim trim' f lis calls,
        treeIds (fst (parseListItems trim source lis calls))
        = treeIds (fst (parseListItems trim' source
                          (map (relabelLi f) lis) calls))).
Proof.
  split; [|split; [|split; [|split]]].
  - intros e. split; [reflexivity | apply timestampPart_digits].
  - intros e. reflexivity.
  - intros e Hr. pose proof (randomPart_alphanumeric e Hr) as Hrand.
    split; [exact Hrand|].
    unfold generateValidHtmlId.
    change (anchorSafe (String "i" (String "d" (String "-"
              (timestampPart e +:+ randomPart e)))) = true).
    cbn [anchorSafe allChars]. rewrite allChars_app.
    apply andb_true_iff. split; [reflexivity|].
    apply andb_true_iff. split; [reflexivity|].
    apply andb_true_iff. split; [reflexivity|].
    apply andb_true_iff. split.
    + apply (allChars_weaken isDigit); [|apply timestampPart_digits].
      intros c Hc. rewrite Hc. now rewrite orb_true_r.
    + apply (allChars_weaken (fun x => isDigit x || isLower x));
        [|exact Hrand].
      intros c Hc. apply orb_true_iff in Hc as [Hc|Hc].
      * rewrite Hc. now rewrite orb_true_r.
      * unfold isLetter. now rewrite Hc.
  - intros Hlen Hdiff. unfold generateIds.
    apply NoDup_ListNoDup, NoDup_fmap_2_strong; [|apply NoDup_seq].
    intros i j Hi Hj Heq.
    apply elem_of_seq in Hi, Hj.
    destruct (decide (i = j)) as [|Hne]; [assumption|exfalso].
    apply (Hdiff i j); [lia | lia | exact Hne |].
    apply generateValidHtmlId_inj in Heq as [-> ->]; [reflexivity|].
    apply Hlen; lia.
  - intros trim trim' f lis calls. apply treeIds_relabel.
Qed.

(* ------------------------------------------------------------------ *)
(** ** Content harvester *)
(* ------------------------------------------------------------------ *)

Lemma tbind_events {A B : Type} (P : Event -> Prop) (t : Task A)
  (k : A -> Task B) :
  Forall P (fst t) -> (forall a, Forall P (fst (k a))) ->
  Forall P (fst (tbind t k)).
Proof.
  intros Ht Hk. destruct t as [events [e|a]]; simpl; [exact Ht|].
  specialize (Hk a). destruct (k a) as [events' r]. simpl in *.
  apply Forall_app. now split.
Qed.

Lemma call_events {A : Type} (P : Event -> Prop) (ev : Event) (r : Result A) :
  P ev -> Forall P (fst (call ev r)).
Proof. intros H. simpl. now constructor. Qed.

Section HarvesterFacts.

Context {dom : Dom}.

Lemma harvest_events (page : Page) (sidebarItem : SidebarItem) :
  Forall inPage (fst (harvest page sidebarItem)).
Proof.
  unfold harvest, evaluate.
  repeat (apply tbind_events; [apply call_events; now split | intros ?]).
  simpl. constructor.
Qed.

Lemma harvest_fields (page : Page) (sidebarItem : SidebarItem)
  (detail : PageDetails) :
  snd (harvest page sidebarItem) = inr detail ->
  exists html, detail = withHtml sidebarItem html.
Proof.
  unfold harvest, tbind, call.
  destruct (page_goto page (url sidebarItem)); [discriminate|].
  destruct (check (page_waitForSelector page contentSelector));
    [discriminate|].
  destruct (evaluate page 0 _ _ _) as [ev0 [e0|x0]]; [discriminate|].
  destruct (evaluate page 1 _ _ _) as [ev1 [e1|x1]]; [discriminate|].
  destruct (evaluate page 2 _ _ _) as [ev2 [e2|x2]]; [discriminate|].
  simpl. intros [= <-]. eauto.
Qed.

Lemma count_inPage (events : list Event) :
  Forall inPage events ->
  List.filter isNewPage events = [] /\ List.filter isPageClose events = [].
Proof.
  induction 1 as [|ev events [H1 H2] _ [IH1 IH2]]; simpl; [now split|].
  now rewrite H1, H2.
Qed.

(** The outcome of a page task: the page cannot be opened, or it cannot
    be closed, or the harvest decides the content. *)
Lemma processSinglePage_outcome (browser : Browser)
  (sidebarItem : SidebarItem) (workerId : nat) :
  snd (processSinglePage browser sidebarItem workerId)
  = match browser_newPage browser 0 with
    | inl e => inl e
    | inr page =>
        match page_close page with
        | Some e => inl e
        | None =>
            inr (match snd (harvest page sidebarItem) with
                 | inr detail => detail
                 | inl _ => withHtml sidebarItem ""
                 end)
        end
    end.
Proof.
  unfold processSinglePage.
  destruct (browser_newPage browser 0) as [e|page]; [reflexivity|].
  simpl. unfold tryCatchFinally.
  destruct (harvest page sidebarItem) as [events [e|detail]]; simpl;
    now destruct (page_close page).
Qed.

(** C7.  A page task closes the page it opened on every path: whether
    the harvest returns or throws at any step, [page.close()] is called
    once, after everything else; a task whose [newPage] is rejected has
    opened nothing and closes nothing. *)
Theorem processSinglePage_closes_page (browser : Browser)
  (sidebarItem : SidebarItem) (workerId : nat) :
  let events := fst (processSinglePage browser sidebarItem workerId) in
  length (List.filter isPageClose events)
  = length (List.filter isNewPage events)
  /\ (forall page, browser_newPage browser 0 = inr page ->
        exists between,
          events = EvNewPage :: between ++ [EvPageClose]
          /\ Forall inPage between)
  /\ (forall e, browser_newPage browser 0 = inl e -> events = []).
Proof.
  unfold processSinglePage.
  destruct (browser_newPage browser 0) as [e|page]; simpl.
  { split; [reflexivity|]. split; [discriminate|reflexivity]. }
  unfold tryCatchFinally.
  pose proof (harvest_events page sidebarItem) as Hev.
  destruct (harvest page sidebarItem) as [events1 [e|detail]]; simpl in *.
  - set (logged := EvConsoleError _).
    assert (Hbetween : Forall inPage (events1 ++ [logged])).
    { apply Forall_app. split; [exact Hev|].
      constructor; [now split|constructor]. }
    destruct (count_inPage _ Hbetween) as [Hn Hc].
    replace (events1 ++ [logged; EvPageClose])
      with ((events1 ++ [logged]) ++ [EvPageClose])
      by now rewrite <- app_assoc.
    split; [|split; [|discriminate]].
    + rewrite !(List.filter_app _ (events1 ++ [logged])), Hn, Hc.
      reflexivity.
    + intros ? _. exists (events1 ++ [logged]). now split.
  - destruct (count_inPage _ Hev) as [Hn Hc].
    split; [|split; [|discriminate]].
    + rewrite !List.filter_app, Hn, Hc. reflexivity.
    + intros ? _. exists events1. split; [reflexivity | exact Hev].
Qed.


End HarvesterFacts.

(* ------------------------------------------------------------------ *)
(** ** Worker pool *)
(* ------------------------------------------------------------------ *)

Lemma countNone_replicate {A : Type} (n : nat) :
  countNone (replicate n (@None A)) = n.
Proof. induction n as [|n IH]; [reflexivity|]. unfold countNone in *. simpl. now rewrite IH. Qed.

Lemma countNone_insert {A : Type} (out : list (option A)) (i : nat) (x : A) :
  out !! i = Some None -> S (countNone (<[i := Some x]> out)) = countNone out.
Proof.
  unfold countNone. revert i. induction out as [|o out IH]; intros [|i] H;
    try discriminate H.
  - injection H as ->. reflexivity.
  - simpl in H. specialize (IH i H). simpl.
    destruct o; simpl; [exact IH | now rewrite IH].
Qed.

Lemma countNone_zero {A : Type} (out : list (option A)) (i : nat) :
  countNone out = 0 -> out !! i <> Some None.
Proof.
  unfold countNone. revert i. induction out as [|o out IH]; intros [|i] H;
    try discriminate.
  - destruct o; [discriminate | discriminate H].
  - simpl. apply IH. destruct o; [exact H | discriminate H].
Qed.

Lemma busyWorkers_spec (ws : list Worker) (w : nat) :
  In w (busyWorkers ws) <-> exists i, ws !! w = Some (Busy i).
Proof.
  unfold busyWorkers. rewrite filter_In, in_seq. split.
  - intros [_ H]. destruct (ws !! w) as [[i|]|]; try discriminate. eauto.
  - intros [i H]. split; [|now rewrite H].
    apply lookup_lt_Some in H. lia.
Qed.

Lemma startWorkers_spec (N W : nat) :
  startWorkers N W
  = {| currentIndex := min W N;
       orderedPageDetails := replicate N None;
       workers := map Busy (seq 0 (min W N)) ++ replicate (W - N) Finished |}.
Proof.
  induction W as [|W IH]; [reflexivity|].
  unfold startWorkers. rewrite seq_S, fold_left_app.
  fold (startWorkers N W). rewrite IH.
  cbn [fold_left currentIndex orderedPageDetails workers]. unfold claim.
  destruct (Nat.ltb_spec (min W N) N) as [Hlt|Hge].
  - replace (min W N) with W by lia. replace (min (S W) N) with (S W) by lia.
    replace (W - N) with 0 by lia. replace (S W - N) with 0 by lia.
    rewrite seq_S, map_app. simpl. now rewrite !app_nil_r.
  - replace (min W N) with N by lia. replace (min (S W) N) with N by lia.
    replace (S W - N) with (S (W - N)) by lia.
    now rewrite replicate_S_end, app_assoc.
Qed.

Section PoolFacts.

Context {dom : Dom}.
Variable browser : Browser.
Variable pages : list SidebarItem.

(** The outcome of the task of page [i]. *)
Definition settled (i : nat) : Result PageDetails :=
  snd (pageTask browser pages i 0).

Lemma pageTask_workerId (i w : nat) :
  snd (pageTask browser pages i w) = settled i.
Proof.
  unfold settled, pageTask. destruct (pages !! i); [|reflexivity].
  now rewrite !processSinglePage_outcome.
Qed.

(** What holds of the shared variables between two turns. *)
Record PoolInv (pool : Pool) : Prop := mkPoolInv {
  inv_length : length (orderedPageDetails pool) = length pages;
  inv_bound : currentIndex pool <= length pages;
  inv_done : forall i detail,
    orderedPageDetails pool !! i = Some (Some detail) ->
    settled i = inr detail;
  inv_unclaimed : forall i,
    currentIndex pool <= i -> i < length pages ->
    orderedPageDetails pool !! i = Some None;
  inv_pending : forall i,
    i < currentIndex pool -> orderedPageDetails pool !! i = Some None ->
    exists w, workers pool !! w = Some (Busy i);
  inv_busy : forall w i,
    workers pool !! w = Some (Busy i) ->
    i < currentIndex pool /\ orderedPageDetails pool !! i = Some None;
  inv_distinct : forall w w' i,
    workers pool !! w = Some (Busy i) ->
    workers pool !! w' = Some (Busy i) -> w = w';
  inv_finished : forall w,
    workers pool !! w = Some Finished -> length pages <= currentIndex pool
}.

Lemma startWorkers_workers_lookup (W w : nat) (x : Worker) :
  workers (startWorkers (length pages) W) !! w = Some x ->
  (x = Busy w /\ w < min W (length pages))
  \/ (x = Finished /\ length pages < W).
Proof.
  rewrite startWorkers_spec. cbn [workers].
  rewrite lookup_app_Some, list_lookup_fmap_Some.
  intros [(j & -> & Hj)|[_ Hr]].
  - apply lookup_seq in Hj as [-> Hlt]. now left.
  - apply lookup_replicate in Hr as [-> Hlt]. right. split; [reflexivity|lia].
Qed.

Lemma startWorkers_inv (W : nat) : PoolInv (startWorkers (length pages) W).
Proof.
  constructor.
  - rewrite startWorkers_spec. apply length_replicate.
  - rewrite startWorkers_spec. simpl. lia.
  - rewrite startWorkers_spec. simpl. intros i detail H.
    apply lookup_replicate in H as [H _]. discriminate H.
  - rewrite startWorkers_spec. simpl. intros i _ Hi.
    now apply lookup_replicate.
  - intros i Hi _. exists i. rewrite startWorkers_spec in *. simpl in *.
    rewrite lookup_app_l by (rewrite length_map, length_seq; exact Hi).
    rewrite list_lookup_fmap, lookup_seq_lt by exact Hi. reflexivity.
  - intros w i H. apply startWorkers_workers_lookup in H as [[[= ->] H]|[[=] _]].
    rewrite startWorkers_spec. simpl. split; [exact H|].
    apply lookup_replicate. split; [reflexivity|lia].
  - intros w w' i H H'.
    apply startWorkers_workers_lookup in H as [[[= ->] _]|[[=] _]].
    apply startWorkers_workers_lookup in H' as [[[= ->] _]|[[=] _]].
    reflexivity.
  - intros w H. apply startWorkers_workers_lookup in H as [[[=] _]|[_ H]].
    rewrite startWorkers_spec. simpl. lia.
Qed.

Lemma resume_busy (pool : Pool) (w i : nat) :
  workers pool !! w = Some (Busy i) ->
  resume browser pages pool w
  = (pageDetail <- settled i ;;
     let '(worker, next) := claim (length pages) (currentIndex pool) in
     ret {| currentIndex := next;
            orderedPageDetails :=
              <[i := Some pageDetail]> (orderedPageDetails pool);
            workers := <[w := worker]> (workers pool) |}).
Proof. intros H. unfold resume. now rewrite H, pageTask_workerId. Qed.

Lemma resume_inv (pool pool' : Pool) (w i : nat) :
  PoolInv pool ->
  workers pool !! w = Some (Busy i) ->
  resume browser pages pool w = inr pool' ->
  PoolInv pool'
  /\ S (countNone (orderedPageDetails pool'))
     = countNone (orderedPageDetails pool)
  /\ length (workers pool') = length (workers pool).
Proof.
  intros Inv Hw. rewrite (resume_busy _ _ _ Hw).
  destruct (settled i) as [e|detail] eqn:Hsettled; [discriminate|].
  destruct (inv_busy _ Inv _ _ Hw) as [Hi Hslot].
  pose proof (inv_bound _ Inv) as Hbound.
  pose proof (inv_length _ Inv) as Hlen.
  assert (Hwlt : w < length (workers pool)) by (eapply lookup_lt_Some, Hw).
  assert (Hilt : i < length (orderedPageDetails pool)) by lia.
  simpl. unfold claim.
  destruct (Nat.ltb_spec (currentIndex pool) (length pages)) as [Hlt|Hge];
    intros [= <-]; cbn [currentIndex orderedPageDetails workers];
    (split; [|split; [now apply countNone_insert | apply length_insert]]).
  - constructor; cbn [currentIndex orderedPageDetails workers].
    + now rewrite length_insert.
    + lia.
    + intros j d. destruct (decide (i = j)) as [<-|Hne].
      * rewrite list_lookup_insert_eq by exact Hilt. now intros [= <-].
      * rewrite list_lookup_insert_ne by exact Hne. apply (inv_done _ Inv).
    + intros j Hj Hjn. rewrite list_lookup_insert_ne by lia.
      apply (inv_unclaimed _ Inv); lia.
    + intros j Hj. destruct (decide (i = j)) as [<-|Hne].
      * rewrite list_lookup_insert_eq by exact Hilt. discriminate.
      * rewrite list_lookup_insert_ne by exact Hne. intros Hnone.
        destruct (decide (j = currentIndex pool)) as [->|Hnc].
        { exists w. now rewrite list_lookup_insert_eq. }
        destruct (inv_pending _ Inv j) as [w' Hw']; [lia|exact Hnone|].
        exists w'. rewrite list_lookup_insert_ne; [exact Hw'|].
        intros <-. congruence.
    + intros w' j. destruct (decide (w = w')) as [<-|Hne].
      * rewrite list_lookup_insert_eq by exact Hwlt. intros [= <-].
        split; [lia|]. rewrite list_lookup_insert_ne by lia.
        apply (inv_unclaimed _ Inv); lia.
      * rewrite list_lookup_insert_ne by exact Hne. intros Hw'.
        destruct (inv_busy _ Inv _ _ Hw') as [Hj Hjslot].
        split; [lia|]. rewrite list_lookup_insert_ne; [exact Hjslot|].
        intros <-. apply Hne. apply (inv_distinct _ Inv w w' i Hw Hw').
    + intros w1 w2 j.
      destruct (decide (w = w1)) as [<-|Hne1];
        destruct (decide (w = w2)) as [<-|Hne2]; [reflexivity| | |].
      * rewrite list_lookup_insert_eq by exact Hwlt.
        rewrite list_lookup_insert_ne by exact Hne2. intros [= <-] H2.
        apply (inv_busy _ Inv) in H2. lia.
      * rewrite list_lookup_insert_ne by exact Hne1.
        rewrite list_lookup_insert_eq by exact Hwlt. intros H1 [= <-].
        apply (inv_busy _ Inv) in H1. lia.
      * rewrite !list_lookup_insert_ne by assumption.
        apply (inv_distinct _ Inv).
    + intros w'. destruct (decide (w = w')) as [<-|Hne].
      * rewrite list_lookup_insert_eq by exact Hwlt. discriminate.
      * rewrite list_lookup_insert_ne by exact Hne. intros Hw'.
        apply (inv_finished _ Inv) in Hw'. lia.
  - constructor; cbn [currentIndex orderedPageDetails workers].
    + now rewrite length_insert.
    + lia.
    + intros j d. destruct (decide (i = j)) as [<-|Hne].
      * rewrite list_lookup_insert_eq by exact Hilt. now intros [= <-].
      * rewrite list_lookup_insert_ne by exact Hne. apply (inv_done _ Inv).
    + intros j Hj Hjn. lia.
    + intros j Hj. destruct (decide (i = j)) as [<-|Hne].
      * rewrite list_lookup_insert_eq by exact Hilt. discriminate.
      * rewrite list_lookup_insert_ne by exact Hne. intros Hnone.
        destruct (inv_pending _ Inv j Hj Hnone) as [w' Hw'].
        exists w'. rewrite list_lookup_insert_ne; [exact Hw'|].
        intros <-. congruence.
    + intros w' j. destruct (decide (w = w')) as [<-|Hne].
      * rewrite list_lookup_insert_eq by exact Hwlt. discriminate.
      * rewrite list_lookup_insert_ne by exact Hne. intros Hw'.
        destruct (inv_busy _ Inv _ _ Hw') as [Hj Hjslot].
        split; [lia|]. rewrite list_lookup_insert_ne; [exact Hjslot|].
        intros <-. apply Hne. apply (inv_distinct _ Inv w w' i Hw Hw').
    + intros w1 w2 j.
      destruct (decide (w = w1)) as [<-|Hne1];
        destruct (decide (w = w2)) as [<-|Hne2]; [reflexivity| | |].
      * rewrite list_lookup_insert_eq by exact Hwlt. discriminate.
      * rewrite list_lookup_insert_ne by exact Hne1.
        rewrite list_lookup_insert_eq by exact Hwlt. discriminate.
      * rewrite !list_lookup_insert_ne by assumption.
        apply (inv_distinct _ Inv).
    + intros w' _. lia.
Qed.

Lemma no_busy_when_full (pool : Pool) :
  PoolInv pool -> countNone (orderedPageDetails pool) = 0 ->
  busyWorkers (workers pool) = [].
Proof.
  intros Inv Hzero.
  destruct (busyWorkers (workers pool)) as [|w ws] eqn:Hb; [reflexivity|].
  assert (Hin : In w (busyWorkers (workers pool))) by (rewrite Hb; now left).
  apply busyWorkers_spec in Hin as [i Hi].
  apply (inv_busy _ Inv) in Hi as [_ Hi].
  now apply countNone_zero with (i := i) in Hzero.
Qed.

(** The loop ends with a rejection that is the outcome of a page, or
    with every worker out of its loop. *)
Lemma awaitAll_run (turns : nat) (schedule : nat -> nat) (turn : nat)
  (pool : Pool) :
  PoolInv pool ->
  countNone (orderedPageDetails pool) <= turns ->
  match awaitAll turns schedule turn browser pages pool with
  | inr pool' =>
      PoolInv pool' /\ busyWorkers (workers pool') = []
      /\ length (workers pool') = length (workers pool)
  | inl e => exists i, i < length pages /\ settled i = inl e
  end.
Proof.
  revert turn pool. induction turns as [|turns IH]; intros turn pool Inv Hc.
  - simpl. split; [exact Inv|]. split; [|reflexivity].
    apply no_busy_when_full; [exact Inv | lia].
  - cbn [awaitAll].
    destruct (busyWorkers (workers pool)) as [|first others] eqn:Hb.
    { simpl. now rewrite Hb. }
    set (w := nth _ _ _).
    assert (Hin : In w (busyWorkers (workers pool))).
    { rewrite Hb. apply nth_In, Nat.mod_upper_bound. discriminate. }
    apply busyWorkers_spec in Hin as [i Hi].
    pose proof (resume_inv pool) as Hres. specialize (Hres) with (w := w) (i := i).
    rewrite (resume_busy _ _ _ Hi) in *.
    destruct (settled i) as [e|detail] eqn:Hs.
    + simpl. exists i. split; [|exact Hs].
      apply (inv_busy _ Inv) in Hi. pose proof (inv_bound _ Inv). lia.
    + simpl in *. destruct (claim (length pages) (currentIndex pool))
        as [worker next].
      simpl in *.
      destruct (Hres _ Inv Hi eq_refl) as (Inv' & Hcount & Hlen).
      specialize (IH (S turn) _ Inv').
      destruct (awaitAll turns schedule (S turn) browser pages _)
        as [e|pool'].
      * apply IH. simpl in *. lia.
      * destruct IH as (Hinv & Hnb & Hl); [simpl in *; lia|].
        split; [exact Hinv|]. split; [exact Hnb|]. congruence.
Qed.

(** With every worker out of its loop, and at least one worker, every
    slot holds the outcome of its page. *)
Lemma all_slots_filled (pool : Pool) (i : nat) :
  PoolInv pool -> busyWorkers (workers pool) = [] ->
  0 < length (workers pool) -> i < length pages ->
  exists detail,
    orderedPageDetails pool !! i = Some (Some detail)
    /\ settled i = inr detail.
Proof.
  intros Inv Hnb Hw Hi.
  assert (Hnobusy : forall w j, workers pool !! w <> Some (Busy j)).
  { intros w j H.
    assert (Hin : In w (busyWorkers (workers pool)))
      by (apply busyWorkers_spec; eauto).
    now rewrite Hnb in Hin. }
  destruct (lookup_lt_is_Some_2 (orderedPageDetails pool) i) as [o Ho].
  { rewrite (inv_length _ Inv). exact Hi. }
  destruct o as [detail|].
  - exists detail. split; [exact Ho|]. now apply (inv_done _ Inv).
  - exfalso. destruct (le_lt_dec (currentIndex pool) i) as [Hge|Hlt].
    + destruct (lookup_lt_is_Some_2 (workers pool) 0 Hw) as [[j|] H0].
      * now apply Hnobusy in H0.
      * apply (inv_finished _ Inv) in H0. lia.
    + destruct (inv_pending _ Inv i Hlt Ho) as [w Hw'].
      now apply Hnobusy in Hw'.
Qed.

End PoolFacts.

Section PoolTheorems.

Context {dom : Dom}.

Lemma settled_page (browser : Browser) (pages : list SidebarItem) (i : nat)
  (item : SidebarItem) :
  pages !! i = Some item ->
  settled browser pages i
  = snd (processSinglePage (afterNewPages i browser) item 0).
Proof. intros H. unfold settled, pageTask. now rewrite H. Qed.

Lemma pageTask_outcome (browser : Browser) (i : nat) (item : SidebarItem) :
  snd (processSinglePage (afterNewPages i browser) item 0)
  = match browser_newPage browser i with
    | inl e => inl e
    | inr page =>
        match page_close page with
        | Some e => inl e
        | None =>
            inr (match snd (harvest page item) with
                 | inr detail => detail
                 | inl _ => withHtml item ""
                 end)
        end
    end.
Proof.
  rewrite processSinglePage_outcome. cbn [afterNewPages browser_newPage].
  now rewrite Nat.add_0_r.
Qed.

Lemma pageTask_fields (browser : Browser) (i : nat) (item : SidebarItem)
  (detail : PageDetails) :
  snd (processSinglePage (afterNewPages i browser) item 0) = inr detail ->
  exists html, detail = withHtml item html.
Proof.
  rewrite pageTask_outcome.
  destruct (browser_newPage browser i) as [e|page]; [discriminate|].
  destruct (page_close page); [discriminate|].
  destruct (snd (harvest page item)) as [e|d] eqn:Hh; intros [= <-].
  - now exists "".
  - now apply harvest_fields in Hh.
Qed.

Lemma startWorkers_length (N W : nat) : length (workers (startWorkers N W)) = W.
Proof.
  rewrite startWorkers_spec. cbn [workers].
  rewrite length_app, length_map, length_seq, length_replicate. lia.
Qed.

Lemma buildPageDetailsParallel_result (schedule : nat -> nat)
  (browser : Browser) (sidebarItems : list SidebarItem)
  (maxConcurrency : nat) :
  1 <= maxConcurrency ->
  match buildPageDetailsParallel schedule browser sidebarItems
                                 maxConcurrency with
  | inr out =>
      length out = length (extractPages sidebarItems [])
      /\ forall i, i < length (extractPages sidebarItems []) ->
           exists detail,
             out !! i = Some (Some detail)
             /\ settled browser (extractPages sidebarItems []) i = inr detail
  | inl e =>
      exists i, i < length (extractPages sidebarItems [])
                /\ settled browser (extractPages sidebarItems []) i = inl e
  end.
Proof.
  intros HW. unfold buildPageDetailsParallel.
  set (pages := extractPages sidebarItems []).
  pose proof (awaitAll_run browser pages (length pages) schedule 0
                (startWorkers (length pages) maxConcurrency)
                (startWorkers_inv browser pages maxConcurrency)) as Hrun.
  destruct (awaitAll _ _ _ _ _ _) as [e|pool]; simpl.
  - apply Hrun. rewrite startWorkers_spec. simpl.
    now rewrite countNone_replicate.
  - destruct Hrun as (Inv & Hnb & Hlen).
    { rewrite startWorkers_spec. simpl. now rewrite countNone_replicate. }
    rewrite startWorkers_length in Hlen.
    split; [apply (inv_length _ _ _ Inv)|].
    intros i Hi. apply all_slots_filled; try assumption. lia.
Qed.

(** What the pool returns is the outcome of every page at the index of
    the page, and it returns whenever no page task is rejected. *)
Lemma buildPageDetailsParallel_outcomes (schedule : nat -> nat)
  (browser : Browser) (sidebarItems : list SidebarItem)
  (maxConcurrency : nat) :
  1 <= maxConcurrency ->
  let pages := extractPages sidebarItems [] in
  (forall out,
     buildPageDetailsParallel schedule browser sidebarItems maxConcurrency
     = inr out ->
     length out = length pages
     /\ forall i item, pages !! i = Some item ->
          exists html,
            out !! i = Some (Some (withHtml item html))
            /\ snd (processSinglePage (afterNewPages i browser) item 0)
               = inr (withHtml item html))
  /\ ((forall i item, pages !! i = Some item ->
         exists detail,
           snd (processSinglePage (afterNewPages i browser) item 0)
           = inr detail) ->
      exists out,
        buildPageDetailsParallel schedule browser sidebarItems maxConcurrency
        = inr out).
Proof.
  intros HW pages.
  pose proof (buildPageDetailsParallel_result schedule browser sidebarItems
                maxConcurrency HW) as Hres.
  fold pages in Hres. split.
  - intros out Hout. rewrite Hout in Hres. destruct Hres as [Hlen Hslots].
    split; [exact Hlen|]. intros i item Hi.
    destruct (Hslots i) as (detail & Ho & Hs).
    { eapply lookup_lt_Some, Hi. }
    rewrite (settled_page _ _ _ _ Hi) in Hs.
    destruct (pageTask_fields _ _ _ _ Hs) as [html ->]. eauto.
  - intros Hall.
    destruct (buildPageDetailsParallel _ _ _ _) as [e|out]; [|eauto].
    destruct Hres as (i & Hi & Hs).
    destruct (lookup_lt_is_Some_2 pages i Hi) as [item Hitem].
    rewrite (settled_page _ _ _ _ Hitem) in Hs.
    destruct (Hall i item Hitem) as [detail Hd]. congruence.
Qed.

(** C1.  With at least one worker, whatever the order in which the pages
    settle, the array the pool returns has the length of the flattened
    list, which is the list of leaf pages in pre-order, and holds at
    every index the outcome of the page of that index; the pool returns
    whenever no page task is rejected. *)
Theorem buildPageDetailsParallel_order (schedule : nat -> nat)
  (browser : Browser) (sidebarItems : list SidebarItem)
  (maxConcurrency : nat) :
  1 <= maxConcurrency ->
  let pages := extractPages sidebarItems [] in
  pages = List.filter isPage (preorder sidebarItems)
  /\ (forall out,
        buildPageDetailsParallel schedule browser sidebarItems maxConcurrency
        = inr out ->
        length out = length pages
        /\ forall i item, pages !! i = Some item ->
             exists html,
               out !! i = Some (Some (withHtml item html))
               /\ snd (processSinglePage (afterNewPages i browser) item 0)
                  = inr (withHtml item html))
  /\ ((forall i item, pages !! i = Some item ->
         exists detail,
           snd (processSinglePage (afterNewPages i browser) item 0)
           = inr detail) ->
      exists out,
        buildPageDetailsParallel schedule browser sidebarItems maxConcurrency
        = inr out).
Proof.
  intros HW pages. split; [apply extractPages_preorder|].
  apply buildPageDetailsParallel_outcomes, HW.
Qed.


End PoolTheorems.


Lemma buildPageDetailsParallel_order_witness :
  exists out,
    buildPageDetailsParallel (fun turn => turn + 1) (toyBrowser (fun _ => false))
                             scenarioTree 2
    = inr out
    /\ length out = 2.
Proof.
  destruct (buildPageDetailsParallel_order
              (fun turn => turn + 1) (toyBrowser (fun _ => false))
              scenarioTree 2) as (_ & Hsound & Hcomplete); [lia|].
  destruct Hcomplete as [out Hout].
  - intros [|[|i]] item Hi; vm_compute in Hi; try discriminate Hi;
      injection Hi as <-; eexists; vm_compute; reflexivity.
  - exists out. split; [exact Hout|]. now apply Hsound.
Defined.


Lemma processSinglePage_closes_page_witness :
  exists between,
    fst (processSinglePage (toyBrowser (fun _ => true))
           {| id := "a"; title := "Intro"; path := "/docs/intro";
              url := "https://x/docs/intro"; children := [] |} 0)
    = EvNewPage :: between ++ [EvPageClose].
Proof.
  destruct (processSinglePage_closes_page (toyBrowser (fun _ => true))
              {| id := "a"; title := "Intro"; path := "/docs/intro";
                 url := "https://x/docs/intro"; children := [] |} 0)
    as (_ & Hopen & _).
  destruct (Hopen (toyPage true "Hello") eq_refl) as (between & H & _).
  exists between. exact H.
Defined.

Lemma generateValidHtmlId_shape_and_distinctness_witness :
  List.NoDup (generateIds exampleSource 3)
  /\ anchorSafe (generateValidHtmlId (exampleSource 0)) = true.
Proof.
  destruct (generateValidHtmlId_shape_and_distinctness exampleSource 3)
    as (_ & _ & Hsafe & Hdistinct & _).
  split.
  - apply Hdistinct.
    + intros [|[|[|i]]] [|[|[|j]]] Hi Hj; try lia; reflexivity.
    + intros [|[|[|i]]] [|[|[|j]]] Hi Hj Hne; try lia;
        try (exfalso; apply Hne; reflexivity); vm_compute; discriminate.
  - apply Hsafe. right. exists "4fzyo82mvyr". split; reflexivity.
Defined.

(* ------------------------------------------------------------------ *)
(** ** Exit codes *)
(* ------------------------------------------------------------------ *)

Section ExitCodes.

Context {dom : Dom}.

(** The converter never throws but through the closing of the browser. *)
Lemma convertDocusaurusPageToPdf_outcome (w : World)
  (options : PdfGenerationOptions) :
  snd (convertDocusaurusPageToPdf w options)
  = match launchBrowser w with
    | inl _ => inr tt
    | inr browser => check (browser_close browser)
    end.
Proof.
  unfold convertDocusaurusPageToPdf, tryCatchFinally.
  destruct (launchBrowser w) as [e|browser]; [reflexivity|].
  destruct (convertStages w browser options) as [events [e|[]]]; simpl;
    now destruct (browser_close browser).
Qed.

Lemma main_missing_option (w : World) (opts : ProgramOpts) :
  Js.truthyOpt (opt_docsUrl opts) = false
  \/ Js.truthyOpt (opt_pdfPath opts) = false ->
  snd (main w opts) = 1.
Proof.
  unfold main. intros [H|H].
  - now rewrite H.
  - rewrite H. now destruct (Js.truthyOpt (opt_docsUrl opts)).
Qed.

(** With both options and an output directory, the exit code is 0 unless
    the closing of a launched browser throws: page failures, and a failed
    launch, end in code 0. *)
Lemma main_exit_code (w : World) (opts : ProgramOpts) :
  Js.truthyOpt (opt_docsUrl opts) = true ->
  Js.truthyOpt (opt_pdfPath opts) = true ->
  (forall dir, fs_existsSync w dir = false -> fs_mkdirSync w dir = None) ->
  snd (main w opts)
  = match launchBrowser w with
    | inl _ => 0
    | inr browser => match browser_close browser with
                     | Some _ => 1
                     | None => 0
                     end
    end.
Proof.
  intros Hd Hp Hdir. unfold main. rewrite Hd, Hp. simpl.
  unfold mainBody.
  set (options := mkOptions _ _ _ _ _).
  set (dir := path_dirname w _).
  pose proof (convertDocusaurusPageToPdf_outcome w options) as Hc.
  destruct (convertDocusaurusPageToPdf w options) as [events r].
  simpl in Hc. subst r.
  destruct (fs_existsSync w dir) eqn:He; simpl.
  - destruct (launchBrowser w) as [e|browser]; [reflexivity|].
    now destruct (browser_close browser).
  - rewrite (Hdir dir He). simpl.
    destruct (launchBrowser w) as [e|browser]; [reflexivity|].
    now destruct (browser_close browser).
Qed.

End ExitCodes.

(** C5 (the code departs from it).  With both required options present
    and the launch of the browser failing, the error is caught inside the
    converter and [main] ends with exit code 0, where the claim has 1. *)
Theorem main_exit_code_after_launch_failure :
  snd (main (toyWorld (throw (PlainError "Failed to launch the browser process")))
            validOpts)
  = 0
  /\ snd (main (toyWorld (throw (PlainError "Failed to launch the browser process")))
               {| opt_docsUrl := None; opt_pdfPath := Some "out.pdf";
                  opt_pdfCoverImage := None; opt_pdfMarginMm := "10";
                  opt_pageConcurrency := "4" |})
     = 1
  /\ snd (main (toyWorld (ret (toyBrowser (fun _ => true)))) validOpts) = 0.
Proof. repeat split; vm_compute; reflexivity. Qed.

(* ------------------------------------------------------------------ *)
(** ** Document assembler *)
(* ------------------------------------------------------------------ *)

Lemma string_app_assoc (a b c : string) : (a +:+ b) +:+ c = a +:+ (b +:+ c).
Proof.
  induction a as [|x a IH]; [reflexivity|].
  change (String x ((a +:+ b) +:+ c) = String x (a +:+ (b +:+ c))).
  now rewrite IH.
Qed.

Lemma string_app_nil_r (a : string) : a +:+ "" = a.
Proof.
  induction a as [|x a IH]; [reflexivity|].
  change (String x (a +:+ "") = String x a). now rewrite IH.
Qed.

Lemma concat_cons (x : string) (xs : list string) :
  String.concat "" (x :: xs) = x +:+ String.concat "" xs.
Proof. destruct xs; simpl; [now rewrite string_app_nil_r | reflexivity]. Qed.



Section TocFacts.

Variable indentation : nat -> string.







Lemma mergeHtml_fold (details : list PageDetails) (acc : string) :
  fold_left
    (fun acc singlePageDetail =>
       html <- acc ;;
       match singlePageDetail with
       | Some detail => ret (html +:+ pd_html detail)
       | None => throw (TypeError "Cannot read properties of undefined")
       end)
    (map Some details) (ret acc)
  = ret (acc +:+ String.concat "" (map pd_html details)).
Proof.
  revert acc. induction details as [|d details IH]; intros acc.
  - simpl. now rewrite string_app_nil_r.
  - cbn [map fold_left bind ret]. unfold ret in IH. rewrite IH.
    now rewrite concat_cons, string_app_assoc.
Qed.



End TocFacts.

(* ------------------------------------------------------------------ *)
(** ** The merged document in the converter *)
(* ------------------------------------------------------------------ *)



Section ConverterFacts.

Context {dom : Dom}.




End ConverterFacts.

(* ------------------------------------------------------------------ *)
(** ** The properties on the scenario *)
(* ------------------------------------------------------------------ *)

Lemma extractPages_leaf_selection_witness :
  In {| id := "c"; title := "Setup"; path := "/docs/setup";
        url := "https://x/docs/setup"; children := [] |}
     (preorder scenarioTree)
  /\ LeafPage {| id := "c"; title := "Setup"; path := "/docs/setup";
                 url := "https://x/docs/setup"; children := [] |}.
Proof.
  destruct (extractPages_leaf_selection scenarioTree) as (_ & _ & H & _).
  apply H. vm_compute. right. left. reflexivity.
Defined.


(** The scenario end to end: the tree flattens to [a; c], the table of
    contents links to the three nodes at their depths, an id is the
    prefix, eight digits of the clock and the random digits, and a sidebar
    entry without link takes its nested entries with it. *)
Example scenario_flattens : map id (extractPages scenarioTree []) = ["a"; "c"].
Proof. reflexivity. Qed.

Example scenario_toc_links :
  flat_map (linksOf 0) (tocList (fun _ => "0") scenarioTree 0)
  = [(1, "#a", "Intro"); (1, "#b", "Guides"); (2, "#c", "Setup")].
Proof. vm_compute. reflexivity. Qed.

Example scenario_toc_text :
  renderTocItems (fun _ => "0")
    [ {| id := "c"; title := "Setup"; path := "/docs/setup";
         url := "https://x/docs/setup"; children := [] |} ] 0
  = "<ul><li class=" +:+ Js.dq +:+ "toc-document" +:+ Js.dq +:+ " style="
    +:+ Js.dq +:+ "padding-left: 0rem;" +:+ Js.dq +:+ "><a href=" +:+ Js.dq
    +:+ "#c" +:+ Js.dq +:+ ">Setup</a></li></ul>".
Proof. vm_compute. reflexivity. Qed.

Example scenario_id :
  generateValidHtmlId (exampleSource 0) = "id-456789014fzyo82mvyr".
Proof. vm_compute. reflexivity. Qed.

Example scenario_sidebar :
  map title
    (preorder
       (fst (parseListItems (fun s => s) exampleSource
               [ mkLi (Some (mkAnchor (Some "Intro") (Some "/docs/intro")
                                      "https://x/docs/intro")) None;
                 mkLi None
                      (Some [ mkLi (Some (mkAnchor (Some "Hidden")
                                            (Some "/docs/hidden")
                                            "https://x/docs/hidden")) None ]);
                 mkLi (Some (mkAnchor (Some "Guides") (Some "#") "#"))
                      (Some [ mkLi (Some (mkAnchor (Some "Setup")
                                            (Some "/docs/setup")
                                            "https://x/docs/setup")) None ]) ]
               0)))
  = ["Intro"; "Guides"; "Setup"].
Proof. vm_compute. reflexivity. Qed.

Example scenario_pool :
  exists out,
    @buildPageDetailsParallel toyDom (fun turn => turn + 1)
      (toyBrowser (Nat.eqb 0)) scenarioTree 2 = inr out
    /\ map (option_map (fun detail => (pd_id detail, pd_html detail))) out
       = [Some ("a", "");
          Some ("c", "<div id=" +:+ Js.dq +:+ "c" +:+ Js.dq +:+ " style="
                     +:+ Js.dq +:+ "page-break-after: always;" +:+ Js.dq
                     +:+ ">Hello</div>")].
Proof. eexists. split; vm_compute; reflexivity. Qed.

(* ================================================================== *)
(** * Further properties of the sources *)
(* ================================================================== *)

(* ------------------------------------------------------------------ *)
(** ** Tree flattener, continued *)
(* ------------------------------------------------------------------ *)

(** X1.  [extractPages] only appends to its accumulator, and the pages of
    a list of trees are the pages of its parts, one after the other. *)
Theorem extractPages_accumulates (items more acc : list SidebarItem) :
  extractPages items acc = acc ++ extractPages items []
  /\ extractPages (items ++ more) acc
     = extractPages more (extractPages items acc)
  /\ extractPages (items ++ more) []
     = extractPages items [] ++ extractPages more [].
Proof.
  split; [|split].
  - now rewrite !extractPages_preorder.
  - unfold extractPages. apply fold_left_app.
  - rewrite !extractPages_preorder. simpl. unfold preorder.
    now rewrite flat_map_app, List.filter_app.
Qed.

Lemma preorder_of_leaves (items : list SidebarItem) :
  Forall (fun n => children n = []) items -> preorder items = items.
Proof.
  unfold preorder. induction 1 as [|n items Hn _ IH]; [reflexivity|].
  destruct n as [t i p u cs]. simpl in Hn. subst cs. simpl. now rewrite IH.
Qed.

Lemma filter_filter_same {A : Type} (f : A -> bool) (l : list A) :
  List.filter f (List.filter f l) = List.filter f l.
Proof.
  induction l as [|x l IH]; [reflexivity|]. simpl.
  destruct (f x) eqn:Hx; [|exact IH]. simpl. now rewrite Hx, IH.
Qed.

(** X2.  Flattening again changes nothing: the pages are leaves, so the
    flattened list is its own flattening. *)
Theorem extractPages_idempotent (items : list SidebarItem) :
  extractPages (extractPages items []) [] = extractPages items [].
Proof.
  rewrite (extractPages_preorder (extractPages items [])).
  rewrite preorder_of_leaves.
  - rewrite extractPages_preorder. apply filter_filter_same.
  - rewrite extractPages_preorder. apply List.Forall_forall.
    intros n Hn. apply filter_In in Hn as [_ Hn].
    apply isPage_LeafPage in Hn. apply Hn.
Qed.

(* ------------------------------------------------------------------ *)
(** ** Navigation extractor, continued *)
(* ------------------------------------------------------------------ *)

Section SidebarIds.

Variable trim : string -> string.
Variable source : nat -> Entropy.

Lemma treeIds_app (a b : list SidebarItem) :
  treeIds (a ++ b) = treeIds a ++ treeIds b.
Proof. unfold treeIds, preorder. now rewrite flat_map_app, map_app. Qed.

Lemma preorder_app (a b : list SidebarItem) :
  preorder (a ++ b) = preorder a ++ preorder b.
Proof. unfold preorder. apply flat_map_app. Qed.

(** The calls of [generateValidHtmlId] made for a sidebar: as many as
    nodes, each id given to one node. *)
Definition idsAccounted (lis : list Li) (calls : nat) : Prop :=
  let r := parseListItems trim source lis calls in
  snd r = calls + length (preorder (fst r))
  /\ treeIds (fst r)
     ≡ₚ map (fun k => generateValidHtmlId (source k))
            (seq calls (length (preorder (fst r)))).

Lemma parseListItems_nil (c : nat) :
  parseListItems trim source [] c = ([], c).
Proof. reflexivity. Qed.

Lemma idsAccounted_forall (lis : list Li) :
  Forall (fun li => forall c, idsAccounted [li] c) lis ->
  forall c, idsAccounted lis c.
Proof.
  unfold idsAccounted.
  induction 1 as [|li lis Hli _ IH]; intros c.
  { simpl. split; [lia | reflexivity]. }
  change (li :: lis) with ([li] ++ lis). rewrite parseListItems_app.
  destruct (Hli c) as [H1 H2].
  destruct (parseListItems trim source [li] c) as [r1 c1].
  destruct (IH c1) as [H3 H4].
  destruct (parseListItems trim source lis c1) as [r2 c2].
  simpl in *. subst c1 c2.
  rewrite preorder_app, length_app, treeIds_app, seq_app, map_app.
  split; [lia|]. now rewrite H2, H4.
Qed.

Lemma idsAccounted_one (li : Li) (c : nat) : idsAccounted [li] c.
Proof.
  revert c.
  induction li as [[a|]|[a|] subList IH] using Li_forall_ind; intros c;
    unfold idsAccounted;
    try (simpl; split; [lia | reflexivity]).
  rewrite parseListItems_cons, parseListItem_link.
  destruct (idsAccounted_forall subList IH c) as [H1 H2].
  destruct (parseListItems trim source subList c) as [kids c1].
  simpl in H1, H2. subst c1.
  cbn [fst snd]. unfold treeIds, preorder in *.
  rewrite parseListItems_nil.
  cbn [fst snd flat_map preorderItem children map id length itemOf].
  rewrite !app_nil_r. cbn [length map].
  split; [lia|].
  rewrite seq_S, map_app. cbn [map].
  rewrite H2. apply Permutation_cons_append.
Qed.

Lemma parseListItems_idsAccounted (lis : list Li) (c : nat) :
  idsAccounted lis c.
Proof.
  apply idsAccounted_forall, List.Forall_forall.
  intros li _ c'. apply idsAccounted_one.
Qed.

(** X3.  The extraction calls [generateValidHtmlId] once per node of the
    tree it builds, the ids of the tree are those calls' ids, each given
    to one node, so the ids of the tree are pairwise distinct whenever
    the ids of those calls are. *)
Theorem parseListItems_ids (lis : list Li) (calls : nat) :
  let tree := fst (parseListItems trim source lis calls) in
  let n := length (preorder tree) in
  snd (parseListItems trim source lis calls) = calls + n
  /\ treeIds tree
     ≡ₚ map (fun k => generateValidHtmlId (source k)) (seq calls n)
  /\ (NoDup (map (fun k => generateValidHtmlId (source k)) (seq calls n)) ->
      NoDup (treeIds tree)).
Proof.
  intros tree n.
  destruct (parseListItems_idsAccounted lis calls) as [H1 H2].
  fold tree in H1, H2. fold n in H1, H2.
  split; [exact H1|]. split; [exact H2|].
  intros Hnd. now rewrite H2.
Qed.

Lemma linkedFields_forall (lis : list Li) :
  Forall (fun li => forall c,
            map (fun n => (title n, path n, url n))
                (preorder (fst (parseListItems trim source [li] c)))
            = map (fun a => (anchorTitle trim a,
                             Js.orEmpty (getAttributeHref a), hrefProperty a))
                  (linkedAnchors li)) lis ->
  forall c,
    map (fun n => (title n, path n, url n))
        (preorder (fst (parseListItems trim source lis c)))
    = map (fun a => (anchorTitle trim a,
                     Js.orEmpty (getAttributeHref a), hrefProperty a))
          (flat_map linkedAnchors lis).
Proof.
  induction 1 as [|li lis Hli _ IH]; intros c; [reflexivity|].
  change (li :: lis) with ([li] ++ lis). rewrite parseListItems_app.
  specialize (Hli c).
  destruct (parseListItems trim source [li] c) as [r1 c1].
  specialize (IH c1).
  destruct (parseListItems trim source lis c1) as [r2 c2].
  simpl in *. now rewrite preorder_app, !map_app, Hli, IH.
Qed.

Lemma linkedFields_one (li : Li) (c : nat) :
  map (fun n => (title n, path n, url n))
      (preorder (fst (parseListItems trim source [li] c)))
  = map (fun a => (anchorTitle trim a,
                   Js.orEmpty (getAttributeHref a), hrefProperty a))
        (linkedAnchors li).
Proof.
  revert c.
  induction li as [[a|]|[a|] subList IH] using Li_forall_ind; intros c;
    try reflexivity.
  rewrite parseListItems_cons, parseListItem_link.
  pose proof (linkedFields_forall subList IH c) as Hs.
  destruct (parseListItems trim source subList c) as [kids c1].
  rewrite parseListItems_nil.
  cbn [fst] in *. unfold preorder in *.
  cbn [flat_map preorderItem children linkedAnchors li_a li_subList map
       title path url itemOf].
  rewrite app_nil_r. cbn [map title path url]. now rewrite Hs.
Qed.

(** X4.  The tree keeps the order of the sidebar: its nodes in document
    order carry the trimmed text, the [href] attribute (the empty string
    when absent) and the resolved address of the link elements of the
    linked entries, in the order of the DOM. *)
Theorem parseListItems_fields_in_order (lis : list Li) (calls : nat) :
  map (fun n => (title n, path n, url n))
      (preorder (fst (parseListItems trim source lis calls)))
  = map (fun a => (anchorTitle trim a,
                   Js.orEmpty (getAttributeHref a), hrefProperty a))
        (flat_map linkedAnchors lis).
Proof.
  apply linkedFields_forall, List.Forall_forall.
  intros li _ c. apply linkedFields_one.
Qed.

End SidebarIds.

Lemma parseListItems_ids_witness :
  NoDup (treeIds (fst (parseListItems (fun s => s) exampleSource
                         scenarioSidebar 0))).
Proof.
  destruct (parseListItems_ids (fun s => s) exampleSource scenarioSidebar 0)
    as (_ & _ & H).
  apply H. refine (bool_decide_unpack _ _). vm_compute. exact I.
Defined.

(* ------------------------------------------------------------------ *)
(** ** Lazy images and links of the merged document *)
(* ------------------------------------------------------------------ *)

(** X5.  After [removeLazyLoading] no image is lazy, the images that were
    not lazy are as they were, the number logged is 0 exactly when the
    document is unchanged, and a second run changes nothing and logs 0. *)
Theorem removeLazyLoading_clears (doc : list Img) :
  let doc' := fst (removeLazyLoading doc) in
  List.filter isLazy doc' = []
  /\ length doc' = length doc
  /\ (forall i img, doc !! i = Some img -> isLazy img = false ->
                    doc' !! i = Some img)
  /\ (forall i img, doc !! i = Some img -> isLazy img = true ->
                    doc' !! i = Some (mkImg None))
  /\ (snd (removeLazyLoading doc) = 0 <-> doc' = doc)
  /\ removeLazyLoading doc' = (doc', 0).
Proof.
  unfold removeLazyLoading. cbn [fst snd].
  set (clear := fun img => if isLazy img then mkImg None else img).
  assert (Hclear : forall img, isLazy (clear img) = false).
  { intros img. unfold clear. destruct (isLazy img) eqn:H; [reflexivity|exact H]. }
  assert (Hnone : List.filter isLazy (map clear doc) = []).
  { induction doc as [|img doc IH]; [reflexivity|]. simpl.
    now rewrite Hclear. }
  assert (Hlookup : forall i, map clear doc !! i = clear <$> doc !! i).
  { intros i. apply list_lookup_fmap. }
  split; [exact Hnone|]. split; [apply length_map|].
  split; [|split; [|split]].
  - intros i img Hi Hl. rewrite Hlookup, Hi. simpl. unfold clear.
    now rewrite Hl.
  - intros i img Hi Hl. rewrite Hlookup, Hi. simpl. unfold clear.
    now rewrite Hl.
  - split.
    + intros Hzero. clear Hnone Hlookup.
      induction doc as [|img doc IH]; [reflexivity|].
      cbn [List.filter map] in *. destruct (isLazy img) eqn:Hl.
      * discriminate Hzero.
      * unfold clear at 1. rewrite Hl. f_equal. apply IH, Hzero.
    + intros Heq. rewrite <- Heq at 1. now rewrite Hnone.
  - rewrite Hnone. f_equal. rewrite map_map. apply map_ext.
    intros img. unfold clear at 1. now rewrite Hclear.
Qed.

Lemma removeLazyLoading_clears_witness :
  fst (removeLazyLoading [mkImg (Some "lazy"); mkImg (Some "eager"); mkImg None])
      !! 1
  = Some (mkImg (Some "eager")).
Proof.
  destruct (removeLazyLoading_clears
              [mkImg (Some "lazy"); mkImg (Some "eager"); mkImg None])
    as (_ & _ & Hkeep & _).
  apply Hkeep; reflexivity.
Defined.

Lemma anchorOf_pathToAnchorsOf (details : list PageDetails) (p : string) :
  anchorOf (pathToAnchorsOf details) p
  = pd_id <$> List.find (fun it => String.eqb p (pd_path it)) details.
Proof.
  unfold anchorOf, pathToAnchorsOf.
  induction details as [|d details IH]; [reflexivity|]. simpl.
  destruct (String.eqb p (pd_path d)); [reflexivity | exact IH].
Qed.

(** X6.  With the map the converter builds from the pages, a link to the
    path of a page is rewritten to ['#'] followed by the id of the first
    page with that path, which is the page itself when the paths of the
    pages are pairwise different; a link to no page's path is kept. *)
Theorem rewriteLinks_pathToAnchors (details : list PageDetails) :
  (forall p, rewriteLinks (pathToAnchorsOf details) [mkLink (Some p)]
             = [mkLink (Some (match List.find
                                      (fun it => String.eqb p (pd_path it))
                                      details with
                              | Some it => "#" +:+ pd_id it
                              | None => p
                              end))])
  /\ (List.NoDup (map pd_path details) ->
      forall it, In it details ->
        rewriteLinks (pathToAnchorsOf details) [mkLink (Some (pd_path it))]
        = [mkLink (Some ("#" +:+ pd_id it))]).
Proof.
  assert (Hone : forall p,
            rewriteLinks (pathToAnchorsOf details) [mkLink (Some p)]
            = [match anchorOf (pathToAnchorsOf details) p with
               | Some a => mkLink (Some ("#" +:+ a))
               | None => mkLink (Some p)
               end]).
  { intros p. unfold rewriteLinks. cbn [map href Js.orEmpty].
    rewrite rewriteHref_anchorOf.
    now destruct (anchorOf (pathToAnchorsOf details) p). }
  split.
  - intros p. rewrite Hone, anchorOf_pathToAnchorsOf.
    now destruct (List.find _ details).
  - intros Hnd it Hin. rewrite Hone.
    rewrite (anchorOf_unique_key _ (pd_path it) (pd_id it)); [reflexivity| |].
    + unfold pathToAnchorsOf. now rewrite map_map.
    + unfold pathToAnchorsOf. apply in_map_iff. now exists it.
Qed.

Lemma rewriteLinks_pathToAnchors_witness :
  rewriteLinks
    (pathToAnchorsOf [mkPageDetails "a" "Intro" "https://x/docs/intro"
                                    "/docs/intro" "";
                      mkPageDetails "c" "Setup" "https://x/docs/setup"
                                    "/docs/setup" ""])
    [mkLink (Some "/docs/setup")]
  = [mkLink (Some "#c")].
Proof.
  destruct (rewriteLinks_pathToAnchors
              [mkPageDetails "a" "Intro" "https://x/docs/intro"
                             "/docs/intro" "";
               mkPageDetails "c" "Setup" "https://x/docs/setup"
                             "/docs/setup" ""]) as [_ H].
  apply (H ltac:(apply NoDup_ListNoDup; refine (bool_decide_unpack _ _);
                 vm_compute; exact I)
           (mkPageDetails "c" "Setup" "https://x/docs/setup" "/docs/setup" "")).
  right. left. reflexivity.
Defined.

(* ------------------------------------------------------------------ *)
(** ** Cover and merge *)
(* ------------------------------------------------------------------ *)

Lemma includes_app (a b : string) (c : ascii) :
  Js.includes (a +:+ b) c = Js.includes a c || Js.includes b c.
Proof.
  induction a as [|x a IH]; [reflexivity|].
  change (Js.includes (String x (a +:+ b)) c
          = Js.includes (String x a) c || Js.includes b c).
  simpl. now rewrite IH, orb_assoc.
Qed.

Lemma afterChar_skips (c : ascii) (a b : string) :
  Js.includes a c = false ->
  Js.afterChar c (a +:+ String c b) = b.
Proof.
  induction a as [|x a IH]; intros H.
  - simpl. now rewrite Ascii.eqb_refl.
  - simpl in H. apply orb_false_iff in H as [Hx Ha].
    change (Js.afterChar c (String x (a +:+ String c b)) = b).
    simpl. rewrite Hx. now apply IH.
Qed.

Lemma untilChar_whole (c : ascii) (a : string) :
  Js.includes a c = false -> Js.untilChar c a = a.
Proof.
  induction a as [|x a IH]; intros H; [reflexivity|].
  simpl in *. apply orb_false_iff in H as [Hx Ha].
  now rewrite Hx, IH.
Qed.

(** X7.  The cover is the same whether the image data comes bare or
    behind a data URL prefix: everything up to the first comma is dropped
    when the data has one comma, and data without comma is used as it
    is. *)
Theorem generateCoverHtml_strips_prefix (mime header data : string)
  (format : PaperFormat) :
  Js.includes header "," = false ->
  Js.includes data "," = false ->
  generateCoverHtml mime (header +:+ "," +:+ data) format
  = generateCoverHtml mime data format.
Proof.
  intros Hh Hd. unfold generateCoverHtml.
  rewrite includes_app, Hh. cbn [orb].
  change ("," +:+ data) with (String "," data).
  cbn [Js.includes]. rewrite Ascii.eqb_refl. cbn [orb].
  unfold Js.secondField. rewrite (afterChar_skips _ _ _ Hh).
  now rewrite (untilChar_whole _ _ Hd), Hd.
Qed.

Lemma generateCoverHtml_strips_prefix_witness :
  generateCoverHtml "image/png" ("data:image/png;base64" +:+ "," +:+ "iVBORw0KGgo=")
                    PAPER_FORMATS_A4
  = generateCoverHtml "image/png" "iVBORw0KGgo=" PAPER_FORMATS_A4.
Proof. apply generateCoverHtml_strips_prefix; reflexivity. Defined.

Lemma merge_fold_thrown (pageDetails : list (option PageDetails)) (e : JsError) :
  fold_left
    (fun acc singlePageDetail =>
       html <- acc ;;
       match singlePageDetail with
       | Some detail => ret (html +:+ pd_html detail)
       | None => throw (TypeError "Cannot read properties of undefined")
       end)
    pageDetails (inl e)
  = inl e.
Proof. induction pageDetails as [|o l IH]; [reflexivity | exact IH]. Qed.

Lemma merge_fold_returns (pageDetails : list (option PageDetails))
  (acc html : string) :
  fold_left
    (fun acc singlePageDetail =>
       html <- acc ;;
       match singlePageDetail with
       | Some detail => ret (html +:+ pd_html detail)
       | None => throw (TypeError "Cannot read properties of undefined")
       end)
    pageDetails (ret acc)
  = inr html ->
  exists details, pageDetails = map Some details.
Proof.
  revert acc. induction pageDetails as [|[d|] l IH]; intros acc H.
  - now exists [].
  - cbn [fold_left bind ret] in H. destruct (IH _ H) as [details ->].
    now exists (d :: details).
  - cbn [fold_left bind ret throw] in H. rewrite merge_fold_thrown in H.
    discriminate H.
Qed.

(** X8.  The merge returns exactly when every slot of the array holds a
    page; an empty slot makes it throw a [TypeError], whatever the cover
    and the sidebar are. *)
Theorem mergeHtml_needs_every_slot (indentation : nat -> string)
  (pdfCoverImage coverImageBase64 coverImageMimeType : option string)
  (sidebarItems : list SidebarItem)
  (pageDetails : list (option PageDetails)) :
  ((exists html,
      mergeHtml indentation pdfCoverImage coverImageBase64
                coverImageMimeType sidebarItems pageDetails = inr html)
   <-> exists details, pageDetails = map Some details)
  /\ (In None pageDetails ->
      mergeHtml indentation pdfCoverImage coverImageBase64
                coverImageMimeType sidebarItems pageDetails
      = inl (TypeError "Cannot read properties of undefined")).
Proof.
  split; [split|].
  - intros [html H]. unfold mergeHtml in H.
    now apply merge_fold_returns in H.
  - intros [details ->]. unfold mergeHtml. rewrite mergeHtml_fold. eauto.
  - intros Hin. unfold mergeHtml.
    set (start := _ +:+ generateTocHtml _ _ _). clearbody start.
    revert start. induction pageDetails as [|[d|] l IH]; intros start.
    + destruct Hin.
    + destruct Hin as [Hd|Hin]; [discriminate Hd|].
      cbn [fold_left bind ret]. apply (IH Hin).
    + cbn [fold_left bind ret throw]. apply merge_fold_thrown.
Qed.

Lemma mergeHtml_needs_every_slot_witness :
  mergeHtml (fun _ => "0") None None None scenarioTree
            [Some (mkPageDetails "a" "Intro" "https://x/docs/intro"
                                 "/docs/intro" "<p>Intro</p>");
             None]
  = inl (TypeError "Cannot read properties of undefined").
Proof.
  destruct (mergeHtml_needs_every_slot (fun _ => "0") None None None
              scenarioTree
              [Some (mkPageDetails "a" "Intro" "https://x/docs/intro"
                                   "/docs/intro" "<p>Intro</p>");
               None]) as [_ H].
  apply H. right. left. reflexivity.
Defined.

(* ------------------------------------------------------------------ *)
(** ** Content harvester, continued *)
(* ------------------------------------------------------------------ *)

(** Case analysis on every answer a harvest reads. *)
Ltac harvest_cases page sidebarItem :=
  unfold harvest, evaluate, updateElementId, getElementOuterHtml,
    expandDetails;
  unfold tbind, call, tret;
  destruct (page_goto page (url sidebarItem)) as [?e|?response] eqn:?Hgoto;
  destruct (page_waitForSelector page contentSelector) as [?e|] eqn:?Hwait;
  destruct (page_evaluate page 0) as [?e|] eqn:?Hev0;
  destruct (page_evaluate page 1) as [?e|] eqn:?Hev1;
  destruct (page_evaluate page 2) as [?e|] eqn:?Hev2;
  cbn [check bind ret throw fst snd];
  repeat match goal with
         | |- context [querySelector ?d ?sel] =>
             destruct (querySelector d sel) as [?element|] eqn:?Hquery;
             cbn [check bind ret throw fst snd]
         end.

Section HarvesterMore.

Context {dom : Dom}.


Lemma harvest_quiet (page : Page) (sidebarItem : SidebarItem) :
  List.filter isConsoleError (fst (harvest page sidebarItem)) = [].
Proof. harvest_cases page sidebarItem; reflexivity. Qed.

Lemma processSinglePage_console (browser : Browser)
  (sidebarItem : SidebarItem) (workerId : nat) (page : Page) :
  browser_newPage browser 0 = inr page ->
  List.filter isConsoleError
    (fst (processSinglePage browser sidebarItem workerId))
  = match snd (harvest page sidebarItem) with
    | inl error =>
        [EvConsoleError
           ("[Worker " +:+ numberToString (Z.of_nat workerId)
            +:+ "] ERROR processing page " +:+ Js.dq
            +:+ title sidebarItem +:+ Js.dq +:+ " (URL: "
            +:+ url sidebarItem +:+ "): " +:+ errorMessage error)]
    | inr _ => []
    end.
Proof.
  intros Hpage. unfold processSinglePage. rewrite Hpage.
  cbn [tbind call ret]. unfold tryCatchFinally.
  pose proof (harvest_quiet page sidebarItem) as Hq.
  destruct (harvest page sidebarItem) as [events [e|detail]];
    cbn [fst snd] in *; unfold harvestFailed, tbind, call, tret, ret;
    cbn [fst snd app]; cbn [List.filter isConsoleError];
    rewrite List.filter_app, Hq; reflexivity.
Qed.

(** X10.  A page task logs one console error, naming the worker, the
    title, the address and the message, exactly when its harvest threw,
    and none when the harvest returned; then the content is empty. *)
Theorem processSinglePage_logs_failure (browser : Browser)
  (sidebarItem : SidebarItem) (workerId : nat) (page : Page) :
  browser_newPage browser 0 = inr page ->
  List.filter isConsoleError
    (fst (processSinglePage browser sidebarItem workerId))
  = match snd (harvest page sidebarItem) with
    | inl error =>
        [EvConsoleError
           ("[Worker " +:+ numberToString (Z.of_nat workerId)
            +:+ "] ERROR processing page " +:+ Js.dq
            +:+ title sidebarItem +:+ Js.dq +:+ " (URL: "
            +:+ url sidebarItem +:+ "): " +:+ errorMessage error)]
    | inr _ => []
    end
  /\ (forall error detail,
        snd (harvest page sidebarItem) = inl error ->
        snd (processSinglePage browser sidebarItem workerId) = inr detail ->
        detail = withHtml sidebarItem "").
Proof.
  intros Hpage. split; [now apply processSinglePage_console|].
  intros error detail Hh. rewrite processSinglePage_outcome, Hpage, Hh.
  destruct (page_close page); [discriminate|]. now intros [= <-].
Qed.

(** X11.  The Puppeteer calls of a harvest are issued in the order of the
    [try] block and stop at the first one that fails: the calls made are
    a non-empty initial part of the five, and all five when the harvest
    returns. *)
Theorem harvest_call_order (page : Page) (sidebarItem : SidebarItem) :
  fst (harvest page sidebarItem) `prefix_of` harvestCalls sidebarItem
  /\ fst (harvest page sidebarItem) <> []
  /\ ((exists detail, snd (harvest page sidebarItem) = inr detail) ->
      fst (harvest page sidebarItem) = harvestCalls sidebarItem).
Proof.
  unfold harvestCalls.
  harvest_cases page sidebarItem;
    (split; [eexists; reflexivity|]);
    (split; [discriminate|]);
    intros [detail H]; try discriminate H; reflexivity.
Qed.

(** X12.  A page can come back empty without any error: when every step
    succeeds but the selector ['#'] followed by the id finds nothing
    after the stamping, the task returns the page with empty content and
    logs no console error. *)
Theorem processSinglePage_empty_without_error (browser : Browser)
  (sidebarItem : SidebarItem) (workerId : nat) (page : Page)
  (response : option Response) (element : Element) :
  browser_newPage browser 0 = inr page ->
  page_goto page (url sidebarItem) = inr response ->
  page_waitForSelector page contentSelector = None ->
  (forall n, page_evaluate page n = None) ->
  querySelector (fst (expandDetails (page_document page))) contentSelector
  = Some element ->
  querySelector (setId element (id sidebarItem)
                       (fst (expandDetails (page_document page))))
                ("#" +:+ id sidebarItem)
  = None ->
  page_close page = None ->
  snd (processSinglePage browser sidebarItem workerId)
  = inr (withHtml sidebarItem "")
  /\ List.filter isConsoleError
       (fst (processSinglePage browser sidebarItem workerId))
     = [].
Proof.
  intros Hpage Hgoto Hwait Hev Hfound Hmissing Hclose.
  assert (Hh : snd (harvest page sidebarItem) = inr (withHtml sidebarItem "")).
  { unfold expandDetails in Hfound, Hmissing. cbn [fst] in Hfound, Hmissing.
    pose proof (Hev 0) as H0. pose proof (Hev 1) as H1.
    pose proof (Hev 2) as H2.
    harvest_cases page sidebarItem; try congruence; try reflexivity. }
  split.
  - rewrite processSinglePage_outcome, Hpage, Hclose. now rewrite Hh.
  - rewrite (processSinglePage_console _ _ _ _ Hpage). now rewrite Hh.
Qed.

End HarvesterMore.

Lemma processSinglePage_logs_failure_witness :
  length (List.filter isConsoleError
            (fst (processSinglePage (toyBrowser (fun _ => true))
                    {| id := "a"; title := "Intro"; path := "/docs/intro";
                       url := "https://x/docs/intro"; children := [] |} 3)))
  = 1.
Proof.
  destruct (processSinglePage_logs_failure (toyBrowser (fun _ => true))
              {| id := "a"; title := "Intro"; path := "/docs/intro";
                 url := "https://x/docs/intro"; children := [] |} 3
              (toyPage true "Hello") eq_refl) as [H _].
  rewrite H. reflexivity.
Defined.

Lemma harvest_call_order_witness :
  fst (harvest (toyPage false "Hello")
         {| id := "a"; title := "Intro"; path := "/docs/intro";
            url := "https://x/docs/intro"; children := [] |})
  = [EvGoto "https://x/docs/intro"; EvWaitForSelector contentSelector;
     EvEvaluate "expandDetails"; EvEvaluate "updateElementId";
     EvEvaluate "getElementOuterHtml"].
Proof.
  destruct (harvest_call_order (toyPage false "Hello")
              {| id := "a"; title := "Intro"; path := "/docs/intro";
                 url := "https://x/docs/intro"; children := [] |})
    as (_ & _ & H).
  apply H. eexists. vm_compute. reflexivity.
Defined.

Lemma processSinglePage_empty_without_error_witness :
  snd (processSinglePage (@mkBrowser cssDom (fun _ => ret cssPage) None)
         {| id := "intro.v2"; title := "Intro"; path := "/docs/intro";
            url := "https://x/docs/intro"; children := [] |} 0)
  = inr (withHtml
           {| id := "intro.v2"; title := "Intro"; path := "/docs/intro";
              url := "https://x/docs/intro"; children := [] |} "")
  /\ List.filter isConsoleError
       (fst (processSinglePage (@mkBrowser cssDom (fun _ => ret cssPage) None)
               {| id := "intro.v2"; title := "Intro"; path := "/docs/intro";
                  url := "https://x/docs/intro"; children := [] |} 0))
     = [].
Proof.
  apply (@processSinglePage_empty_without_error cssDom
           (@mkBrowser cssDom (fun _ => ret cssPage) None)
           {| id := "intro.v2"; title := "Intro"; path := "/docs/intro";
              url := "https://x/docs/intro"; children := [] |} 0
           cssPage None 0);
    try reflexivity; intros n; reflexivity.
Defined.

(* ------------------------------------------------------------------ *)
(** ** Cover image resolution *)
(* ------------------------------------------------------------------ *)

Lemma prefix_app (a b : string) : String.prefix a (a +:+ b) = true.
Proof.
  induction a as [|c a IH]; [now destruct b|].
  change (String.prefix (String c a) (String c (a +:+ b)) = true).
  simpl. destruct (ascii_dec c c) as [_|Hne]; [exact IH | now contradiction Hne].
Qed.

Section CoverFacts.

Context {dom : Dom}.

(** X13.  [resolveBrowserUrl] returns the empty string for the empty
    string, returns an http or https address as it is without consulting
    the file system, and whatever it returns for a non-empty input starts
    with [http://], [https://] or [file:///]; it throws only when the
    decoding of a file URL throws or the file does not exist. *)
Theorem resolveBrowserUrl_shape (w : World) (inputPath : string) :
  resolveBrowserUrl w "" = inr ""
  /\ (String.prefix "http://" inputPath || String.prefix "https://" inputPath
      = true ->
      resolveBrowserUrl w inputPath = inr inputPath)
  /\ (forall resolved,
        resolveBrowserUrl w inputPath = inr resolved ->
        (inputPath = "" /\ resolved = "")
        \/ String.prefix "http://" resolved
           || String.prefix "https://" resolved
           || String.prefix "file:///" resolved = true)
  /\ (forall e,
        resolveBrowserUrl w inputPath = inl e ->
        decodeURIComponent w (Js.substringFrom 7 inputPath) = inl e
        \/ exists file, fs_existsSync w file = false).
Proof.
  split; [reflexivity|]. split; [|split].
  - intros H. unfold resolveBrowserUrl.
    destruct inputPath as [|c rest]; [discriminate H|].
    cbn [Js.truthy String.eqb negb]. now rewrite H.
  - intros resolved. unfold resolveBrowserUrl.
    destruct (Js.truthy inputPath) eqn:Ht; cbn [negb].
    2:{ intros [= <-]. left. split; [|reflexivity].
        unfold Js.truthy in Ht. apply negb_false_iff, String.eqb_eq in Ht.
        exact Ht. }
    destruct (String.prefix "http://" inputPath
              || String.prefix "https://" inputPath) eqn:Hweb.
    { intros [= <-]. right. now rewrite Hweb. }
    destruct (String.prefix "file:///" inputPath) eqn:Hfile.
    { destruct (decodeURIComponent w _) as [e|localPath]; [discriminate|].
      cbn [bind]. destruct (fs_existsSync w localPath); [|discriminate].
      cbn [negb]. intros [= <-]. right. rewrite Hfile.
      now rewrite orb_true_r. }
    match goal with
    | |- context [fs_existsSync w ?file] => destruct (fs_existsSync w file)
    end; [|discriminate].
    cbn [negb]. intros [= <-]. right. apply orb_true_iff. right.
    apply prefix_app.
  - intros e. unfold resolveBrowserUrl.
    destruct (Js.truthy inputPath); cbn [negb]; [|discriminate].
    destruct (String.prefix "http://" inputPath
              || String.prefix "https://" inputPath); [discriminate|].
    destruct (String.prefix "file:///" inputPath).
    { destruct (decodeURIComponent w _) as [e'|localPath] eqn:Hd.
      - intros [= <-]. now left.
      - cbn [bind]. destruct (fs_existsSync w localPath) eqn:He;
          [discriminate|]. intros _. right. eauto. }
    match goal with
    | |- context [fs_existsSync w ?file] =>
        destruct (fs_existsSync w file) eqn:He
    end; [discriminate|].
    intros _. right. eauto.
Qed.


End CoverFacts.

Lemma resolveBrowserUrl_shape_witness :
  resolveBrowserUrl (toyWorld (throw (PlainError "no browser")))
                    "https://docusaurus.io/img/docusaurus_keytar.svg"
  = inr "https://docusaurus.io/img/docusaurus_keytar.svg".
Proof.
  destruct (@resolveBrowserUrl_shape toyDom
              (toyWorld (throw (PlainError "no browser")))
              "https://docusaurus.io/img/docusaurus_keytar.svg")
    as (_ & H & _).
  apply H. reflexivity.
Defined.


(* ------------------------------------------------------------------ *)
(** ** Worker pool, continued *)
(* ------------------------------------------------------------------ *)

(** X15.  When the workers are created the first pages are handed out in
    order: worker [w] holds page [w] if there is one, the workers beyond
    the number of pages are finished at once, the cursor stands after the
    pages handed out and the output array is empty. *)
Theorem startWorkers_assignment (totalPages maxConcurrency : nat) :
  let pool := startWorkers totalPages maxConcurrency in
  currentIndex pool = min maxConcurrency totalPages
  /\ length (workers pool) = maxConcurrency
  /\ (forall w, w < maxConcurrency ->
        workers pool !! w
        = Some (if w <? totalPages then Busy w else Finished))
  /\ orderedPageDetails pool = replicate totalPages None.
Proof.
  intros pool. unfold pool. split; [now rewrite startWorkers_spec|].
  split; [apply startWorkers_length|]. split; [|now rewrite startWorkers_spec].
  intros w Hw. rewrite startWorkers_spec. cbn [workers].
  destruct (Nat.ltb_spec w totalPages) as [Hlt|Hge].
  - rewrite lookup_app_l by (rewrite length_map, length_seq; lia).
    rewrite list_lookup_fmap, lookup_seq_lt by lia. reflexivity.
  - rewrite lookup_app_r by (rewrite length_map, length_seq; lia).
    rewrite length_map, length_seq. apply lookup_replicate_2. lia.
Qed.

Lemma startWorkers_assignment_witness :
  workers (startWorkers 2 3) !! 1 = Some (Busy 1)
  /\ workers (startWorkers 2 3) !! 2 = Some Finished.
Proof.
  destruct (startWorkers_assignment 2 3) as (_ & _ & H & _).
  split; [apply (H 1) | apply (H 2)]; lia.
Defined.

Section PoolMore.

Context {dom : Dom}.
Variable browser : Browser.
Variable pages : list SidebarItem.

Lemma awaitAll_inv (turns : nat) (schedule : nat -> nat) (turn : nat)
  (pool pool' : Pool) :
  PoolInv browser pages pool ->
  awaitAll turns schedule turn browser pages pool = inr pool' ->
  PoolInv browser pages pool'
  /\ length (workers pool') = length (workers pool).
Proof.
  revert turn pool. induction turns as [|turns IH]; intros turn pool Inv.
  { simpl. intros [= <-]. now split. }
  cbn [awaitAll].
  destruct (busyWorkers (workers pool)) as [|first others] eqn:Hb.
  { intros [= <-]. now split. }
  set (w := nth _ _ _).
  assert (Hin : In w (busyWorkers (workers pool))).
  { rewrite Hb. apply nth_In, Nat.mod_upper_bound. discriminate. }
  apply busyWorkers_spec in Hin as [i Hi].
  destruct (resume browser pages pool w) as [e|next] eqn:Hr;
    [discriminate|].
  destruct (resume_inv browser pages pool next w i Inv Hi Hr)
    as (Inv' & _ & Hlen).
  cbn [bind]. intros Hrun.
  destruct (IH _ _ Inv' Hrun) as [Hinv Hl]. split; [exact Hinv|congruence].
Qed.

(** X16.  At every turn of the pool at most [maxConcurrency] pages are in
    flight, no page is held by two workers, every page in flight is one
    of the list whose slot is still empty, and the cursor never passes
    the end of the list. *)
Theorem awaitAll_bounded (turns : nat) (schedule : nat -> nat)
  (maxConcurrency : nat) (pool : Pool) :
  awaitAll turns schedule 0 browser pages
           (startWorkers (length pages) maxConcurrency)
  = inr pool ->
  length (busyWorkers (workers pool)) <= maxConcurrency
  /\ (forall w w' i,
        workers pool !! w = Some (Busy i) ->
        workers pool !! w' = Some (Busy i) -> w = w')
  /\ (forall w i,
        workers pool !! w = Some (Busy i) ->
        i < length pages /\ orderedPageDetails pool !! i = Some None)
  /\ currentIndex pool <= length pages.
Proof.
  intros Hrun.
  destruct (awaitAll_inv _ _ _ _ _
              (startWorkers_inv browser pages maxConcurrency) Hrun)
    as [Inv Hlen].
  rewrite startWorkers_length in Hlen.
  pose proof (inv_bound _ _ _ Inv) as Hbound.
  split; [|split; [|split]].
  - rewrite <- Hlen. unfold busyWorkers.
    etransitivity; [apply List.filter_length_le|]. now rewrite length_seq.
  - apply (inv_distinct _ _ _ Inv).
  - intros w i Hw. destruct (inv_busy _ _ _ Inv w i Hw) as [Hi Hs].
    split; [lia | exact Hs].
  - exact Hbound.
Qed.

End PoolMore.

Lemma awaitAll_bounded_witness :
  exists pool,
    @awaitAll toyDom 1 (fun turn => turn) 0 (toyBrowser (fun _ => false))
      (extractPages scenarioTree [])
      (startWorkers (length (extractPages scenarioTree [])) 1)
    = inr pool
    /\ length (busyWorkers (workers pool)) <= 1.
Proof.
  eexists. split; [vm_compute; reflexivity|].
  eapply (@awaitAll_bounded toyDom (toyBrowser (fun _ => false))
            (extractPages scenarioTree []) 1 (fun turn => turn) 1).
  vm_compute. reflexivity.
Defined.

Section PoolResults.

Context {dom : Dom}.

(** X17.  What the pool returns does not depend on the number of workers
    nor on the order in which the pages settle: if it returns an array
    for one choice, it returns the same array for every other; if it is
    rejected, the error is the one of a page task. *)
Theorem buildPageDetailsParallel_deterministic
  (schedule schedule' : nat -> nat) (browser : Browser)
  (sidebarItems : list SidebarItem) (maxConcurrency maxConcurrency' : nat) :
  1 <= maxConcurrency -> 1 <= maxConcurrency' ->
  (forall out,
     buildPageDetailsParallel schedule browser sidebarItems maxConcurrency
     = inr out ->
     buildPageDetailsParallel schedule' browser sidebarItems maxConcurrency'
     = inr out)
  /\ (forall e,
        buildPageDetailsParallel schedule browser sidebarItems maxConcurrency
        = inl e ->
        exists i item,
          extractPages sidebarItems [] !! i = Some item
          /\ snd (processSinglePage (afterNewPages i browser) item 0)
             = inl e).
Proof.
  intros HW HW'.
  pose proof (buildPageDetailsParallel_result schedule browser sidebarItems
                maxConcurrency HW) as H1.
  pose proof (buildPageDetailsParallel_result schedule' browser sidebarItems
                maxConcurrency' HW') as H2.
  set (pages := extractPages sidebarItems []) in *.
  split.
  - intros out Hout. rewrite Hout in H1. destruct H1 as [Hlen Hslots].
    destruct (buildPageDetailsParallel schedule' _ _ _) as [e|out'].
    + destruct H2 as (i & Hi & He). destruct (Hslots i Hi) as (d & _ & Hd).
      congruence.
    + destruct H2 as [Hlen' Hslots']. f_equal. apply list_eq. intros i.
      destruct (le_lt_dec (length pages) i) as [Hge|Hlt].
      * rewrite !lookup_ge_None_2 by lia. reflexivity.
      * destruct (Hslots i Hlt) as (d & Ho & Hd).
        destruct (Hslots' i Hlt) as (d' & Ho' & Hd').
        rewrite Ho, Ho'. congruence.
  - intros e He. rewrite He in H1. destruct H1 as (i & Hi & Hs).
    destruct (lookup_lt_is_Some_2 pages i Hi) as [item Hitem].
    exists i, item. split; [exact Hitem|].
    now rewrite <- (settled_page _ _ _ _ Hitem).
Qed.

(** X18.  Without workers (a concurrency of 0, or one that is not a
    number) the pool returns at once an array of empty slots, one per
    page, and the merge of such an array throws when there is a page. *)
Theorem buildPageDetailsParallel_without_workers (schedule : nat -> nat)
  (browser : Browser) (sidebarItems : list SidebarItem) :
  arrayLength None = 0
  /\ buildPageDetailsParallel schedule browser sidebarItems 0
     = inr (replicate (length (extractPages sidebarItems [])) None)
  /\ (extractPages sidebarItems [] <> [] ->
      forall indentation cover data mime,
        mergeHtml indentation cover data mime sidebarItems
                  (replicate (length (extractPages sidebarItems [])) None)
        = inl (TypeError "Cannot read properties of undefined")).
Proof.
  split; [reflexivity|]. split.
  - unfold buildPageDetailsParallel.
    destruct (length (extractPages sidebarItems [])); reflexivity.
  - intros Hne indentation cover data mime.
    destruct (extractPages sidebarItems []) as [|item rest];
      [now contradiction Hne|].
    unfold mergeHtml. cbn [length replicate fold_left bind ret throw].
    apply merge_fold_thrown.
Qed.

End PoolResults.

Lemma buildPageDetailsParallel_deterministic_witness :
  @buildPageDetailsParallel toyDom (fun turn => turn + 1)
    (toyBrowser (Nat.eqb 0)) scenarioTree 2
  = @buildPageDetailsParallel toyDom (fun _ => 0)
      (toyBrowser (Nat.eqb 0)) scenarioTree 5.
Proof.
  destruct (@buildPageDetailsParallel_deterministic toyDom
              (fun _ => 0) (fun turn => turn + 1) (toyBrowser (Nat.eqb 0))
              scenarioTree 5 2) as [H _]; [lia | lia |].
  destruct (@buildPageDetailsParallel toyDom (fun _ => 0)
              (toyBrowser (Nat.eqb 0)) scenarioTree 5) as [e|out] eqn:Hout.
  - vm_compute in Hout. discriminate Hout.
  - exact (H out eq_refl).
Defined.

Lemma buildPageDetailsParallel_without_workers_witness :
  mergeHtml (fun _ => "0") None None None scenarioTree
            (replicate (length (extractPages scenarioTree [])) None)
  = inl (TypeError "Cannot read properties of undefined").
Proof.
  destruct (@buildPageDetailsParallel_without_workers toyDom (fun _ => 0)
              (toyBrowser (fun _ => false)) scenarioTree) as (_ & _ & H).
  apply H. discriminate.
Defined.

(* ------------------------------------------------------------------ *)
(** ** Converter and [main], continued *)
(* ------------------------------------------------------------------ *)


Section ConverterMore.

Context {dom : Dom}.







End ConverterMore.

(* ------------------------------------------------------------------ *)
(** ** Table of contents and pages *)
(* ------------------------------------------------------------------ *)


